(** * DatasourcesService: the client of the data sources REST API

    A shallow embedding of
    [ui/ui-app/src/main/resources/static/js/feed-mgr/services/DatasourcesService.js]
    together with the fragment of JavaScript it runs on:

    - strings are sequences of UTF-16 code units;
    - objects and arrays live in a store and are passed by reference, so
      that sharing between an argument and a result can be stated;
    - a call either returns or throws; a promise settles as fulfilled or
      rejected;
    - [$http], [RestUrlService.GET_DATASOURCES_URL] are injected
      collaborators: the service is defined over any transport. *)

From stdpp Require Import base option list gmap strings.
From Stdlib Require Import NArith Ascii String.

Local Open Scope N_scope.

(** ** Strings *)

(** A JavaScript string is a finite sequence of 16-bit code units.  Code
    units are kept as [N]; the operations below only ever look at their
    low bits where a width matters. *)
Definition code_unit : Type := N.
Definition jsstring : Type := list code_unit.

(** A string literal of the source (all of them are ASCII). *)
Definition lit (s : string) : jsstring :=
  N_of_ascii <$> list_ascii_of_string s.

(** ** Values and the store *)

Definition loc : Type := positive.

(** The values that reach the service: [undefined], [null], booleans,
    strings and references to objects or arrays.  Numbers and functions do
    not occur in the identifiers, the entities or the requests handled
    here and are left out. *)
Inductive value : Type :=
  | VUndefined
  | VNull
  | VBool (b : bool)
  | VStr (s : jsstring)
  | VRef (l : loc).

Global Instance value_eq_dec : EqDecision value.
Proof. solve_decision. Defined.

(** A cell of the store: a plain object (its own properties) or an array
    (dense, as every array built or traversed here is). *)
Inductive cell : Type :=
  | CObj (props : gmap string value)
  | CArr (elems : list value).

Abbreviation heap := (gmap loc cell).

(** Errors the language itself raises. *)
Inductive native_error : Type :=
  | TypeError
  | URIError.

Global Instance native_error_eq_dec : EqDecision native_error.
Proof. solve_decision. Defined.

(** The result of evaluating an expression. *)
Inductive exn (A : Type) : Type :=
  | Ok (a : A)
  | Throw (e : native_error).
Arguments Ok {A} a.
Arguments Throw {A} e.

(** Computations that read and extend the store and may throw. *)
Definition Js (A : Type) : Type := heap → exn A * heap.

Definition ret {A} (a : A) : Js A := λ h, (Ok a, h).
Definition throw {A} (e : native_error) : Js A := λ h, (Throw e, h).
Definition bind {A B} (c : Js A) (k : A → Js B) : Js B :=
  λ h, match c h with
       | (Ok a, h') => k a h'
       | (Throw e, h') => (Throw e, h')
       end.

Declare Scope js_scope.
Delimit Scope js_scope with js.
Notation "x <- c ;; k" := (bind c (λ x, k))
  (at level 100, c at next level, right associativity) : js_scope.
Local Open Scope js_scope.

(** Object and array literals allocate a cell at an unused location. *)
Definition alloc (c : cell) : Js value :=
  λ h, let l := fresh (dom h) in (Ok (VRef l), <[l := c]> h).

(** [Array.isArray], which [angular.isArray] is. *)
Definition isArray (v : value) : Js bool :=
  λ h, match v with
       | VRef l => match h !! l with
                   | Some (CArr _) => (Ok true, h)
                   | _ => (Ok false, h)
                   end
       | _ => (Ok false, h)
       end.

(** [v.p] for a property name that no prototype defines: reading from
    [undefined] or [null] throws; a primitive or an array has no such
    property; an object yields its own property or [undefined]. *)
Definition get (v : value) (p : string) : Js value :=
  λ h, match v with
       | VUndefined | VNull => (Throw TypeError, h)
       | VBool _ | VStr _ => (Ok VUndefined, h)
       | VRef l => match h !! l with
                   | Some (CObj props) => (Ok (default VUndefined (props !! p)), h)
                   | _ => (Ok VUndefined, h)
                   end
       end.

(** The elements of [v] when [v] is an array; calling an array method on
    anything else fails with a [TypeError]. *)
Definition elements_of (v : value) : Js (list value) :=
  λ h, match v with
       | VRef l => match h !! l with
                   | Some (CArr elems) => (Ok elems, h)
                   | _ => (Throw TypeError, h)
                   end
       | _ => (Throw TypeError, h)
       end.

(** Strict equality [===] on these values: same type and same primitive
    value, or the same reference. *)
Definition strict_equals (a b : value) : bool := bool_decide (a = b).

(** [Array.prototype.indexOf]: the first index holding a value strictly
    equal to [x], or [-1]. *)
Fixpoint indexOf_from (i : Z) (l : list value) (x : value) : Z :=
  match l with
  | [] => (-1)%Z
  | y :: l' => if strict_equals y x then i else indexOf_from (i + 1)%Z l' x
  end.
Definition indexOf (l : list value) (x : value) : Z := indexOf_from 0 l x.

(** [Array.prototype.filter] and [Array.prototype.map] run the callback
    on the elements from left to right and store the outcome in a new
    array. *)
Fixpoint filter_elems (cb : value → Js bool) (l : list value) : Js (list value) :=
  match l with
  | [] => ret []
  | x :: l' =>
      keep <- cb x ;;
      rest <- filter_elems cb l' ;;
      ret (if keep : bool then x :: rest else rest)
  end.

Fixpoint map_elems (cb : value → Js value) (l : list value) : Js (list value) :=
  match l with
  | [] => ret []
  | x :: l' =>
      y <- cb x ;;
      rest <- map_elems cb l' ;;
      ret (y :: rest)
  end.

Definition Array_filter (array : value) (cb : value → Js bool) : Js value :=
  elems <- elements_of array ;;
  kept <- filter_elems cb elems ;;
  alloc (CArr kept).

Definition Array_map (array : value) (cb : value → Js value) : Js value :=
  elems <- elements_of array ;;
  mapped <- map_elems cb elems ;;
  alloc (CArr mapped).

(** ** [encodeURIComponent] *)

Definition in_range (lo hi c : code_unit) : bool := (lo <=? c) && (c <=? hi).

Definition is_alpha (c : code_unit) : bool :=
  in_range 65 90 c || in_range 97 122 c.
Definition is_digit (c : code_unit) : bool := in_range 48 57 c.

(** The marks [- _ . ! ~ * ' ( )]. *)
Definition is_mark (c : code_unit) : bool :=
  bool_decide (c ∈ [45; 95; 46; 33; 126; 42; 39; 40; 41]).

(** The characters [encodeURIComponent] copies to its output. *)
Definition is_unescaped (c : code_unit) : bool :=
  is_alpha c || is_digit c || is_mark c.

Definition is_leading_surrogate (c : code_unit) : bool := in_range 0xD800 0xDBFF c.
Definition is_trailing_surrogate (c : code_unit) : bool := in_range 0xDC00 0xDFFF c.

Definition surrogate_pair_to_code_point (lead trail : code_unit) : N :=
  (lead - 0xD800) * 0x400 + (trail - 0xDC00) + 0x10000.

(** The octets of the UTF-8 encoding of a code point. *)
Definition utf8 (cp : N) : list N :=
  if cp <? 0x80 then [cp]
  else if cp <? 0x800 then
    [N.lor 0xC0 (N.shiftr cp 6); N.lor 0x80 (N.land cp 0x3F)]
  else if cp <? 0x10000 then
    [N.lor 0xE0 (N.shiftr cp 12);
     N.lor 0x80 (N.land (N.shiftr cp 6) 0x3F);
     N.lor 0x80 (N.land cp 0x3F)]
  else
    [N.lor 0xF0 (N.shiftr cp 18);
     N.lor 0x80 (N.land (N.shiftr cp 12) 0x3F);
     N.lor 0x80 (N.land (N.shiftr cp 6) 0x3F);
     N.lor 0x80 (N.land cp 0x3F)].

(** An upper-case hexadecimal digit. *)
Definition hex_digit (d : N) : code_unit :=
  let d := N.land d 0xF in
  if d <? 10 then 48 + d else 55 + d.

(** ["%XY"] for each octet. *)
Definition percent (octets : list N) : jsstring :=
  octets ≫= λ o, [37; hex_digit (N.shiftr o 4); hex_digit o].

(** The [Encode] operation of the language specification with the
    unescaped set of [encodeURIComponent]: an unescaped code unit is
    copied, anything else is replaced by the escaped octets of its code
    point, and a surrogate without its partner is a [URIError]. *)
Fixpoint encodeURIComponent (s : jsstring) : exn jsstring :=
  match s with
  | [] => Ok []
  | c :: rest =>
      if is_unescaped c then
        match encodeURIComponent rest with
        | Ok r => Ok (c :: r)
        | Throw e => Throw e
        end
      else if is_trailing_surrogate c then Throw URIError
      else if is_leading_surrogate c then
        match rest with
        | second :: rest' =>
            if is_trailing_surrogate second then
              match encodeURIComponent rest' with
              | Ok r => Ok (percent (utf8 (surrogate_pair_to_code_point c second)) ++ r)
              | Throw e => Throw e
              end
            else Throw URIError
        | [] => Throw URIError
        end
      else
        match encodeURIComponent rest with
        | Ok r => Ok (percent (utf8 c) ++ r)
        | Throw e => Throw e
        end
  end.

(** A string in which every surrogate is part of a pair. *)
Fixpoint well_formed (s : jsstring) : bool :=
  match s with
  | [] => true
  | c :: rest =>
      if is_trailing_surrogate c then false
      else if is_leading_surrogate c then
        match rest with
        | second :: rest' => is_trailing_surrogate second && well_formed rest'
        | [] => false
        end
      else well_formed rest
  end.

(** ** Path segments of a URI (RFC 3986, section 3.3) *)

Definition is_hexdig (c : code_unit) : bool :=
  is_digit c || in_range 65 70 c || in_range 97 102 c.

(** [unreserved / sub-delims / ":" / "@"]: what a segment may hold besides
    escapes.  The delimiters [/ ? #] and the percent sign are not among
    them. *)
Definition is_pchar (c : code_unit) : bool :=
  is_alpha c || is_digit c
  || bool_decide (c ∈ [45; 46; 95; 126])
  || bool_decide (c ∈ [33; 36; 38; 39; 40; 41; 42; 43; 44; 59; 61])
  || bool_decide (c ∈ [58; 64]).

(** [segment = *pchar], where [pchar] is also ["%" HEXDIG HEXDIG]. *)
Fixpoint is_segment (s : jsstring) : bool :=
  match s with
  | [] => true
  | c :: rest =>
      if c =? 37 then
        match rest with
        | x :: y :: rest' => is_hexdig x && is_hexdig y && is_segment rest'
        | _ => false
        end
      else is_pchar c && is_segment rest
  end.

(** The delimiters [/], [?] and [#] that end a segment. *)
Definition is_delimiter (c : code_unit) : bool := bool_decide (c ∈ [47; 63; 35]).

(** ** Promises and the transport *)

(** Why a promise is rejected: the transport handed over a failure value,
    or a callback of the chain threw. *)
Inductive reason : Type :=
  | Failure (e : value)
  | Raised (e : native_error).

(** A promise, represented by the way it settles. *)
Inductive promise (A : Type) : Type :=
  | Fulfilled (a : A)
  | Rejected (r : reason).
Arguments Fulfilled {A} a.
Arguments Rejected {A} r.

(** [p.then(onFulfilled)], without a rejection handler: a fulfilled [p]
    runs the callback, whose result fulfils the new promise and whose
    exception rejects it; a rejected [p] passes its reason on. *)
Definition then_ {A B} (p : promise A) (onFulfilled : A → exn B) : promise B :=
  match p with
  | Fulfilled a =>
      match onFulfilled a with
      | Ok b => Fulfilled b
      | Throw e => Rejected (Raised e)
      end
  | Rejected r => Rejected r
  end.

(** What a call of an asynchronous operation gives its caller: a promise,
    or an exception thrown before any promise was made. *)
Inductive completion (A : Type) : Type :=
  | Returned (p : promise A)
  | Thrown (e : native_error).
Arguments Returned {A} p.
Arguments Thrown {A} e.

Inductive http_method : Type := GET | POST | DELETE.

(** The request configuration handed to [$http]. *)
Record request : Type := {
  method : http_method;
  url : jsstring;
  params : gmap string value;
  body : value
}.

(** The response object [$http] fulfils its promise with (its [headers]
    getter and its copy of the request are not looked at by the service
    and are left out). *)
Record response : Type := {
  data : value;
  status : N;
  statusText : jsstring
}.

(** The answer of the transport to one request. *)
Inductive reply : Type :=
  | Resolve (r : response)
  | Reject (e : value).

Section Service.

(** [RestUrlService.GET_DATASOURCES_URL]. *)
Variable GET_DATASOURCES_URL : jsstring.

(** The registry behind [$http]: its state, and how it answers a
    request.  Answering may add the objects of the response to the
    store. *)
Variable registry : Type.
Variable respond : request → registry → heap → reply * registry * heap.

(** What an asynchronous operation runs in: the store, the requests sent
    so far, each with the store it was sent from, and the registry. *)
Record world : Type := {
  store : heap;
  sent : list (request * heap);
  remote : registry
}.

Definition Async (A : Type) : Type := world → completion A * world.

(** [$http(config)]: one request, one answer. *)
Definition http (config : request) (w : world) : promise response * world :=
  let '(answer, remote', store') := respond config (remote w) (store w) in
  (match answer with
   | Resolve r => Fulfilled r
   | Reject e => Rejected (Failure e)
   end,
   {| store := store'; sent := sent w ++ [(config, store w)]; remote := remote' |}).

(** The shortcuts [$http.get(url, {params: ...})] and
    [$http.post(url, data)]. *)
Definition http_get (u : jsstring) (ps : gmap string value) : world → promise response * world :=
  http {| method := GET; url := u; params := ps; body := VUndefined |}.

Definition http_post (u : jsstring) (d : value) : world → promise response * world :=
  http {| method := POST; url := u; params := ∅; body := d |}.

Definition JDBC_TYPE : jsstring := lit "JdbcDatasource".
Definition USER_TYPE : jsstring := lit "UserDatasource".

(** [function (response) { return response.data; }] *)
Definition unwrap (r : response) : exn value := Ok (data r).

Definition deleteById (id : jsstring) : Async response :=
  λ w, match encodeURIComponent id with
       | Ok escaped =>
           let '(p, w') :=
             http {| method := DELETE;
                     url := GET_DATASOURCES_URL ++ lit "/" ++ escaped;
                     params := ∅;
                     body := VUndefined |} w in
           (Returned p, w')
       | Throw e => (Thrown e, w)
       end.

Definition filterArrayByIds (ids array : value) : Js value :=
  ids_is_array <- isArray ids ;;
  idList <- (if ids_is_array : bool then ret ids else alloc (CArr [ids])) ;;
  Array_filter array (λ datasource,
    candidates <- elements_of idList ;;
    id <- get datasource "id" ;;
    ret (bool_decide (-1 < indexOf candidates id)%Z)).

Definition findAll : Async value :=
  λ w, let '(p, w') :=
         http_get GET_DATASOURCES_URL {[ "type" := VStr USER_TYPE ]} w in
       (Returned (then_ p unwrap), w').

Definition findById (id : jsstring) : Async value :=
  λ w, let '(p, w') :=
         http_get (GET_DATASOURCES_URL ++ lit "/" ++ id) ∅ w in
       (Returned (then_ p unwrap), w').

Definition getIds (datasources : value) : Js value :=
  is_array <- isArray datasources ;;
  array <- (if is_array : bool then ret datasources else alloc (CArr [datasources])) ;;
  Array_map array (λ datasource, get datasource "id").

(** The object literal; its one nested literal is the empty array. *)
Definition newJdbcDatasource : Js value :=
  feeds <- alloc (CArr []) ;;
  alloc (CObj (list_to_map
    [("@type", VStr JDBC_TYPE);
     ("name", VStr (lit ""));
     ("description", VStr (lit ""));
     ("sourceForFeeds", feeds);
     ("type", VStr (lit ""));
     ("databaseConnectionUrl", VStr (lit ""));
     ("databaseDriverClassName", VStr (lit ""));
     ("databaseDriverLocation", VStr (lit ""));
     ("databaseUser", VStr (lit ""));
     ("password", VStr (lit ""))])).

Definition save (datasource : value) : Async value :=
  λ w, let '(p, w') := http_post GET_DATASOURCES_URL datasource w in
       (Returned (then_ p unwrap), w').

(** An operation that sends [config] once, never throws, never rejects
    with an error of its own, and hands a failure of the transport to
    its caller as it is. *)
Definition propagates_failure {A} (op : Async A) (config : request) : Prop :=
  ∀ w : world,
    sent (snd (op w)) = sent w ++ [(config, store w)]
    ∧ (∀ e, fst (op w) ≠ Thrown e)
    ∧ (∀ e, fst (op w) ≠ Returned (Rejected (Raised e)))
    ∧ ∀ e remote' store',
        respond config (remote w) (store w) = (Reject e, remote', store') →
        fst (op w) = Returned (Rejected (Failure e)).

End Service.

(** A completion that hands its caller no data. *)
Definition carries_no_payload (c : completion response) : Prop :=
  ∀ r, c = Returned (Fulfilled r) → data r = VUndefined.

Arguments store {registry} w.
Arguments sent {registry} w.
Arguments remote {registry} w.
Arguments http {registry} respond config w.
Arguments http_get {registry} respond u ps w.
Arguments http_post {registry} respond u d w.
Arguments deleteById GET_DATASOURCES_URL {registry} respond id w.
Arguments findAll GET_DATASOURCES_URL {registry} respond w.
Arguments findById GET_DATASOURCES_URL {registry} respond id w.
Arguments save GET_DATASOURCES_URL {registry} respond datasource w.
Arguments propagates_failure {registry} respond {A} op config.

(** ** What the helpers are meant to compute *)

(** The own property [p] of the object [v] refers to, if any. *)
Definition own_property (h : heap) (v : value) (p : string) : option value :=
  match v with
  | VRef l => match h !! l with
              | Some (CObj props) => props !! p
              | _ => None
              end
  | _ => None
  end.

(** The [id] of a datasource as a caller sees it: [undefined] when the
    field is absent. *)
Definition id_of (h : heap) (datasource : value) : value :=
  default VUndefined (own_property h datasource "id").

(** A reference argument points into the store. *)
Definition allocated (h : heap) (v : value) : Prop :=
  match v with
  | VRef l => is_Some (h !! l)
  | _ => True
  end.

(** The [id] field of [datasource] is a string listed in [idset]. *)
Definition id_among (h : heap) (idset : list jsstring) (datasource : value) : bool :=
  match own_property h datasource "id" with
  | Some (VStr s) => bool_decide (s ∈ idset)
  | _ => false
  end.

(** A datasource is a reference to an object of the store. *)
Definition is_datasource (h : heap) (v : value) : Prop :=
  ∃ l props, v = VRef l ∧ h !! l = Some (CObj props).

(** The [ids] argument: one id string, or an array of id strings. *)
Inductive ids_denote (h : heap) : value → list jsstring → Prop :=
  | ids_single (s : jsstring) :
      ids_denote h (VStr s) [s]
  | ids_array (l : loc) (idset : list jsstring) :
      h !! l = Some (CArr (VStr <$> idset)) →
      ids_denote h (VRef l) idset.

(** The [datasources] argument: one datasource, or an array of them. *)
Inductive datasources_denote (h : heap) : value → list value → Prop :=
  | datasources_single (d : value) :
      is_datasource h d →
      datasources_denote h d [d]
  | datasources_array (l : loc) (ds : list value) :
      h !! l = Some (CArr ds) →
      Forall (is_datasource h) ds →
      datasources_denote h (VRef l) ds.

(** ** Transports used to exercise the statements *)

Definition demo_url : jsstring := lit "/proxy/v1/metadata/datasource".

(** A store with the datasources [{id:"a"}], [{id:"b"}], [{id:"c"}] at
    locations 1 to 3, the array of the three at 4, the ids ["c"] and ["a"]
    in an array at 5, a datasource that was never saved at 6, and the
    array of the first, the unsaved and the first again at 7. *)
Definition demo_store : heap :=
  <[1%positive := CObj {[ "id" := VStr (lit "a") ]}]>
  (<[2%positive := CObj {[ "id" := VStr (lit "b") ]}]>
  (<[3%positive := CObj {[ "id" := VStr (lit "c") ]}]>
  (<[4%positive := CArr [VRef 1%positive; VRef 2%positive; VRef 3%positive]]>
  (<[5%positive := CArr [VStr (lit "c"); VStr (lit "a")]]>
  (<[6%positive := CObj {[ "name" := VStr (lit "unsaved") ]}]>
  (<[7%positive := CArr [VRef 1%positive; VRef 6%positive; VRef 1%positive]]> ∅)))))).

(** A registry that answers every request with the entity at location 1. *)
Definition answering (_ : request) (_ : unit) (h : heap) : reply * unit * heap :=
  (Resolve {| data := VRef 1%positive; status := 200; statusText := lit "OK" |}, tt, h).

(** A registry that fails every request. *)
Definition refusing (_ : request) (_ : unit) (h : heap) : reply * unit * heap :=
  (Reject (VStr (lit "503")), tt, h).

Definition demo_world : world unit :=
  {| store := demo_store; sent := []; remote := tt |}.

(** ** Arguments of any shape *)

(** [undefined] and [null], the values a property cannot be read from. *)
Definition is_nullish (v : value) : bool :=
  match v with
  | VUndefined | VNull => true
  | _ => false
  end.

(** The elements of [v] if [v] refers to an array of the store. *)
Definition array_elements (h : heap) (v : value) : option (list value) :=
  match v with
  | VRef l => match h !! l with
              | Some (CArr elems) => Some elems
              | _ => None
              end
  | _ => None
  end.

(** An argument that may be one value or an array of values, read as the
    list of the values it stands for. *)
Definition as_list (h : heap) (v : value) : list value :=
  match array_elements h v with
  | Some elems => elems
  | None => [v]
  end.

(** The elements whose [id] is strictly equal to one of [candidates]. *)
Definition select_by_id (h : heap) (candidates elems : list value) : list value :=
  List.filter (λ d, bool_decide (id_of h d ∈ candidates)) elems.

(** A datasource that was never saved: its [id] reads as [undefined]. *)
Definition is_unsaved (h : heap) (d : value) : bool :=
  bool_decide (id_of h d = VUndefined).

(** The store once an argument that is not an array has been wrapped in
    an array literal. *)
Definition with_wrapped (h : heap) (v : value) : heap :=
  match array_elements h v with
  | Some _ => h
  | None => <[fresh (dom h) := CArr [v]]> h
  end.

(** The addresses of the requests sent so far, oldest first. *)
Definition requested_urls {registry} (w : world registry) : list jsstring :=
  (λ entry, url (fst entry)) <$> sent w.

(** The code point a sequence of UTF-8 octets stands for. *)
Definition decode_octets (octets : list N) : N :=
  match octets with
  | [b] => b
  | [b1; b2] => (b1 - 0xC0) * 0x40 + (b2 - 0x80)
  | [b1; b2; b3] => (b1 - 0xE0) * 0x1000 + (b2 - 0x80) * 0x40 + (b3 - 0x80)
  | [b1; b2; b3; b4] =>
      (b1 - 0xF0) * 0x40000 + (b2 - 0x80) * 0x1000 + (b3 - 0x80) * 0x40 + (b4 - 0x80)
  | _ => 0
  end.

(** The number of octets a UTF-8 sequence has, told by its first octet. *)
Definition octets_announced (first : N) : nat :=
  if first <? 0x80 then 1%nat
  else if first <? 0xE0 then 2%nat
  else if first <? 0xF0 then 3%nat
  else 4%nat.

(** The store of the examples with one more array of ids at location 8:
    ["a"], ["c"] and ["a"] again. *)
Definition demo_store_more : heap :=
  <[8%positive := CArr [VStr (lit "a"); VStr (lit "c"); VStr (lit "a")]]> demo_store.

(** ** The store under the helpers *)

Lemma alloc_fresh (c : cell) (h : heap) :
  ∃ l, alloc c h = (Ok (VRef l), <[l := c]> h) ∧ h !! l = None.
Proof.
  exists (fresh (dom h)). split; [reflexivity|].
  apply not_elem_of_dom, is_fresh.
Qed.

Lemma own_property_insert (h : heap) (l : loc) (c : cell) (d : value) (p : string) :
  h !! l = None → is_datasource h d →
  own_property (<[l := c]> h) d p = own_property h d p.
Proof.
  intros Hl (l' & props & -> & Hd). simpl.
  rewrite lookup_insert_ne by congruence. reflexivity.
Qed.

Lemma get_datasource (h : heap) (d : value) (p : string) :
  is_datasource h d → get d p h = (Ok (default VUndefined (own_property h d p)), h).
Proof. intros (l & props & -> & Hd). simpl. rewrite Hd. reflexivity. Qed.

Lemma indexOf_from_spec (i : Z) (l : list value) (x : value) :
  (0 ≤ i)%Z →
  ((x ∈ l) ∧ (i ≤ indexOf_from i l x)%Z) ∨ ((x ∉ l) ∧ indexOf_from i l x = (-1)%Z).
Proof.
  revert i. induction l as [|y l IH]; intros i Hi; simpl.
  - right. split; [apply not_elem_of_nil | reflexivity].
  - unfold strict_equals. case_bool_decide as Hy.
    + left. subst. split; [left | lia].
    + destruct (IH (i + 1)%Z ltac:(lia)) as [[Hin Hle]|[Hnin Hm]].
      * left. split; [by right | lia].
      * right. split; [|done]. rewrite not_elem_of_cons. split; congruence.
Qed.

Lemma indexOf_found (l : list value) (x : value) :
  bool_decide (-1 < indexOf l x)%Z = bool_decide (x ∈ l).
Proof.
  unfold indexOf. destruct (indexOf_from_spec 0 l x ltac:(lia)) as [[Hin Hle]|[Hnin Hm]].
  - rewrite !bool_decide_eq_true_2; [done | done | lia].
  - rewrite !bool_decide_eq_false_2; [done | done | lia].
Qed.

Lemma id_among_spec (h : heap) (idset : list jsstring) (d : value) :
  bool_decide (id_of h d ∈ VStr <$> idset) = id_among h idset d.
Proof.
  unfold id_of, id_among.
  destruct (own_property h d "id") as [[| |b|s|l]|]; simpl;
    try (apply bool_decide_eq_false_2; intros (s' & Hs & _)%list_elem_of_fmap; discriminate).
  apply bool_decide_ext. rewrite list_elem_of_fmap. split.
  - intros (s' & [= ->] & Hin). done.
  - intros Hin. eauto.
Qed.

Lemma filter_elems_pure (cb : value → Js bool) (f : value → bool) (l : list value) (h : heap) :
  Forall (λ x, cb x h = (Ok (f x), h)) l →
  filter_elems cb l h = (Ok (List.filter f l), h).
Proof.
  induction 1 as [|x l Hx _ IH]; [reflexivity|].
  simpl. unfold bind at 1. rewrite Hx. unfold bind at 1. rewrite IH.
  unfold ret. by destruct (f x).
Qed.

Lemma map_elems_pure (cb : value → Js value) (f : value → value) (l : list value) (h : heap) :
  Forall (λ x, cb x h = (Ok (f x), h)) l →
  map_elems cb l h = (Ok (f <$> l), h).
Proof.
  induction 1 as [|x l Hx _ IH]; [reflexivity|].
  simpl. unfold bind at 1. rewrite Hx. unfold bind at 1. rewrite IH. reflexivity.
Qed.

Lemma filter_sublist (f : value → bool) (l : list value) : sublist (List.filter f l) l.
Proof.
  induction l as [|x l IH]; simpl; [constructor|].
  destruct (f x); by constructor.
Qed.

(** The callback of [filterArrayByIds], once the list of ids is an array
    of strings in the store. *)
Lemma filter_callback (h : heap) (li : loc) (idset : list jsstring) (d : value) :
  h !! li = Some (CArr (VStr <$> idset)) → is_datasource h d →
  bind (elements_of (VRef li)) (λ candidates,
    id <- get d "id" ;;
    ret (bool_decide (-1 < indexOf candidates id)%Z)) h
  = (Ok (id_among h idset d), h).
Proof.
  intros Hli Hd. unfold bind at 1. simpl. rewrite Hli.
  unfold bind. rewrite (get_datasource _ _ _ Hd). unfold ret.
  rewrite indexOf_found. fold (id_of h d). by rewrite id_among_spec.
Qed.

Lemma is_datasource_insert (h : heap) (l : loc) (c : cell) (d : value) :
  h !! l = None → is_datasource h d → is_datasource (<[l := c]> h) d.
Proof.
  intros Hl (l' & props & -> & Hd). exists l', props. split; [done|].
  rewrite lookup_insert_ne by congruence. done.
Qed.

Lemma id_among_insert (h : heap) (l : loc) (c : cell) (idset : list jsstring) (d : value) :
  h !! l = None → is_datasource h d →
  id_among (<[l := c]> h) idset d = id_among h idset d.
Proof. intros Hl Hd. unfold id_among. by rewrite own_property_insert. Qed.

(** Filtering an array of datasources against an array of id strings that
    is already in the store. *)
Lemma filter_against_array (h : heap) (li la : loc) (idset : list jsstring) (elems : list value) :
  h !! li = Some (CArr (VStr <$> idset)) →
  h !! la = Some (CArr elems) →
  Forall (is_datasource h) elems →
  ∃ r,
    Array_filter (VRef la) (λ datasource,
      candidates <- elements_of (VRef li) ;;
      id <- get datasource "id" ;;
      ret (bool_decide (-1 < indexOf candidates id)%Z)) h
    = (Ok (VRef r), <[r := CArr (List.filter (id_among h idset) elems)]> h)
    ∧ h !! r = None.
Proof.
  intros Hli Hla Hds. unfold Array_filter.
  unfold bind at 1. simpl. rewrite Hla.
  unfold bind at 1.
  rewrite (filter_elems_pure _ (id_among h idset)).
  - destruct (alloc_fresh (CArr (List.filter (id_among h idset) elems)) h) as (r & Hr & Hfresh).
    exists r. by rewrite Hr.
  - eapply Forall_impl; [exact Hds|]. intros d Hd. simpl.
    by apply filter_callback.
Qed.

(** C1.  Given one id string or an array of id strings, and an array of
    datasources, [filterArrayByIds] returns a new array holding exactly
    the elements of the given array whose [id] field is a string equal to
    one of the ids, in the order of the given array; it is empty when the
    ids are empty or when no element matches. *)
Theorem filterArrayByIds_selects
    (h : heap) (ids : value) (idset : list jsstring) (la : loc) (elems : list value) :
  ids_denote h ids idset →
  h !! la = Some (CArr elems) →
  Forall (is_datasource h) elems →
  ∃ (r : loc) (h' : heap),
    filterArrayByIds ids (VRef la) h = (Ok (VRef r), h')
    ∧ h' !! r = Some (CArr (List.filter (id_among h idset) elems))
    ∧ sublist (List.filter (id_among h idset) elems) elems
    ∧ (idset = [] → List.filter (id_among h idset) elems = [])
    ∧ ((∀ d, d ∈ elems → id_among h idset d = false) →
       List.filter (id_among h idset) elems = []).
Proof.
  intros Hids Hla Hds.
  assert (∃ r h', filterArrayByIds ids (VRef la) h = (Ok (VRef r), h')
                  ∧ h' !! r = Some (CArr (List.filter (id_among h idset) elems)))
    as (r & h' & Hrun & Hr).
  { destruct Hids as [s | li idset Hli]; unfold filterArrayByIds.
    - unfold bind at 1. simpl. unfold bind at 1.
      destruct (alloc_fresh (CArr [VStr s]) h) as (l0 & -> & Hl0).
      destruct (filter_against_array (<[l0 := CArr [VStr s]]> h) l0 la [s] elems)
        as (r & Hrun & Hfresh).
      + by rewrite lookup_insert_eq.
      + rewrite lookup_insert_ne; [done | congruence].
      + eapply Forall_impl; [exact Hds|]. intros d. by apply is_datasource_insert.
      + exists r. eexists. split; [exact Hrun|].
        rewrite lookup_insert_eq. do 2 f_equal.
        apply List.filter_ext_in. intros d Hd%list_elem_of_In.
        apply id_among_insert; [done|]. rewrite Forall_forall in Hds. auto.
    - unfold bind at 1. simpl. rewrite Hli. unfold bind at 1. simpl.
      destruct (filter_against_array h li la idset elems Hli Hla Hds) as (r & Hrun & Hfresh).
      exists r. eexists. split; [exact Hrun|]. by rewrite lookup_insert_eq. }
  exists r, h'. split; [done|]. split; [done|]. split; [apply filter_sublist|]. split.
  - intros ->. clear. induction elems as [|d elems IH]; [done|].
    simpl. unfold id_among at 1.
    destruct (own_property h d "id") as [[| | | |]|]; done.
  - clear. intros Hnone. induction elems as [|d elems IH]; [done|].
    simpl. rewrite Hnone by left. apply IH. intros d' Hd'. apply Hnone. by right.
Qed.

(** C2.  Given one datasource or an array of datasources, [getIds]
    returns a new array holding the [id] field of each of them, in the
    same order and one per element, [undefined] standing for an absent
    [id]. *)
Theorem getIds_maps (h : heap) (datasources : value) (ds : list value) :
  datasources_denote h datasources ds →
  ∃ (r : loc) (h' : heap),
    getIds datasources h = (Ok (VRef r), h')
    ∧ h' !! r = Some (CArr (id_of h <$> ds)).
Proof.
  intros [d Hd | la ds' Hla Hds]; unfold getIds.
  - pose proof Hd as (l & props & -> & Hl).
    unfold bind at 1. simpl. rewrite Hl. unfold bind at 1.
    destruct (alloc_fresh (CArr [VRef l]) h) as (l0 & -> & Hl0).
    unfold Array_map. unfold bind at 1. simpl. rewrite lookup_insert_eq.
    unfold bind at 1.
    rewrite (map_elems_pure _ (id_of h)).
    + destruct (alloc_fresh (CArr (id_of h <$> [VRef l])) (<[l0 := CArr [VRef l]]> h))
        as (r & -> & _).
      exists r. eexists. split; [done|]. by rewrite lookup_insert_eq.
    + constructor; [|constructor].
      rewrite get_datasource by (by apply is_datasource_insert).
      unfold id_of. by rewrite own_property_insert.
  - unfold bind at 1. simpl. rewrite Hla. unfold bind at 1. simpl.
    unfold Array_map. unfold bind at 1. simpl. rewrite Hla.
    unfold bind at 1.
    rewrite (map_elems_pure _ (id_of h)).
    + destruct (alloc_fresh (CArr (id_of h <$> ds')) h) as (r & -> & _).
      exists r. eexists. split; [done|]. by rewrite lookup_insert_eq.
    + eapply Forall_impl; [exact Hds|]. intros d Hd. simpl.
      by rewrite get_datasource.
Qed.

(** C3.  [newJdbcDatasource] returns an object whose ["@type"] is
    ["JdbcDatasource"], whose [sourceForFeeds] is an empty array, whose
    eight string fields are the empty string, and which has no [id]. *)
Theorem newJdbcDatasource_fresh (h : heap) :
  ∃ (o feeds : loc) (h' : heap) (props : gmap string value),
    newJdbcDatasource h = (Ok (VRef o), h')
    ∧ h' !! o = Some (CObj props)
    ∧ props !! "@type" = Some (VStr (lit "JdbcDatasource"))
    ∧ props !! "sourceForFeeds" = Some (VRef feeds)
    ∧ h' !! feeds = Some (CArr [])
    ∧ props !! "name" = Some (VStr [])
    ∧ props !! "description" = Some (VStr [])
    ∧ props !! "type" = Some (VStr [])
    ∧ props !! "databaseConnectionUrl" = Some (VStr [])
    ∧ props !! "databaseDriverClassName" = Some (VStr [])
    ∧ props !! "databaseDriverLocation" = Some (VStr [])
    ∧ props !! "databaseUser" = Some (VStr [])
    ∧ props !! "password" = Some (VStr [])
    ∧ props !! "id" = None.
Proof.
  unfold newJdbcDatasource, bind.
  destruct (alloc_fresh (CArr []) h) as (feeds & -> & Hfeeds).
  match goal with |- context [alloc ?c ?h1] =>
    destruct (alloc_fresh c h1) as (o & -> & Ho) end.
  exists o, feeds. eexists. eexists.
  split; [reflexivity|].
  split; [by rewrite lookup_insert_eq|].
  split; [reflexivity|]. split; [reflexivity|].
  split.
  { rewrite lookup_insert_ne; [by rewrite lookup_insert_eq|].
    intros ->. by rewrite lookup_insert_eq in Ho. }
  repeat split; reflexivity.
Qed.

(** *** Frame properties *)

Lemma isArray_reads (v : value) (h : heap) : ∃ b, isArray v h = (Ok b, h).
Proof.
  destruct v as [| | | |l]; simpl; eauto.
  destruct (h !! l) as [[|]|]; eauto.
Qed.

Lemma get_reads (v : value) (p : string) (h : heap) : snd (get v p h) = h.
Proof.
  destruct v as [| | | |l]; simpl; try done.
  by destruct (h !! l) as [[|]|].
Qed.

Lemma elements_of_reads (v : value) (h : heap) :
  (∃ l elems, v = VRef l ∧ h !! l = Some (CArr elems) ∧ elements_of v h = (Ok elems, h))
  ∨ (∃ e, elements_of v h = (Throw e, h)).
Proof.
  destruct v as [| | | |l]; simpl; eauto.
  destruct (h !! l) as [[|elems]|] eqn:Hl; eauto 10.
Qed.

Lemma filter_elems_reads (cb : value → Js bool) (l : list value) (h : heap) :
  (∀ x h0, snd (cb x h0) = h0) →
  snd (filter_elems cb l h) = h
  ∧ ∀ kept, fst (filter_elems cb l h) = Ok kept → sublist kept l.
Proof.
  intros Hcb. induction l as [|x l [IHh IHs]]; simpl.
  - split; [done|]. intros kept [= <-]. constructor.
  - unfold bind at 1 3. specialize (Hcb x h).
    destruct (cb x h) as [[keep|e] h1]; simpl in Hcb; subst h1; [|done].
    unfold bind. destruct (filter_elems cb l h) as [[rest|e] h2]; simpl in *; subst h2; [|done].
    split; [done|]. intros kept [= <-].
    destruct keep; constructor; auto.
Qed.

Lemma map_elems_reads (cb : value → Js value) (l : list value) (h : heap) :
  (∀ x h0, snd (cb x h0) = h0) → snd (map_elems cb l h) = h.
Proof.
  intros Hcb. induction l as [|x l IH]; simpl; [done|].
  unfold bind at 1. specialize (Hcb x h).
  destruct (cb x h) as [[y|e] h1]; simpl in Hcb; subst h1; [|done].
  unfold bind. by destruct (map_elems cb l h) as [[rest|e] h2]; simpl in *; subst h2.
Qed.

(** What [array.filter] does to the store, whatever the array and for any
    callback that only reads. *)
Lemma Array_filter_frame (array : value) (cb : value → Js bool) (h : heap) :
  (∀ x h0, snd (cb x h0) = h0) →
  (∃ e, Array_filter array cb h = (Throw e, h))
  ∨ (∃ r la elems kept,
       array = VRef la ∧ h !! la = Some (CArr elems) ∧ h !! r = None
       ∧ sublist kept elems
       ∧ Array_filter array cb h = (Ok (VRef r), <[r := CArr kept]> h)).
Proof.
  intros Hcb. unfold Array_filter. unfold bind at 1 3.
  destruct (elements_of_reads array h) as [(la & elems & -> & Hla & ->)|[e ->]]; [|eauto].
  unfold bind.
  destruct (filter_elems_reads cb elems h Hcb) as [Hh Hsub].
  destruct (filter_elems cb elems h) as [[kept|e] h1]; simpl in *; subst h1; [|eauto].
  right. destruct (alloc_fresh (CArr kept) h) as (r & -> & Hr).
  exists r, la, elems, kept. repeat split; auto.
Qed.

Lemma Array_map_frame (array : value) (cb : value → Js value) (h : heap) :
  (∀ x h0, snd (cb x h0) = h0) →
  (∃ e, Array_map array cb h = (Throw e, h))
  ∨ (∃ r mapped,
       h !! r = None ∧ Array_map array cb h = (Ok (VRef r), <[r := CArr mapped]> h)).
Proof.
  intros Hcb. unfold Array_map. unfold bind at 1 3.
  destruct (elements_of_reads array h) as [(la & elems & -> & Hla & ->)|[e ->]]; [|eauto].
  unfold bind.
  pose proof (map_elems_reads cb elems h Hcb) as Hh.
  destruct (map_elems cb elems h) as [[mapped|e] h1]; simpl in *; subst h1; [|eauto].
  right. destruct (alloc_fresh (CArr mapped) h) as (r & -> & Hr).
  exists r, mapped. split; done.
Qed.

Lemma filter_callback_reads (idList : value) (x : value) (h : heap) :
  snd ((candidates <- elements_of idList ;;
        id <- get x "id" ;;
        ret (bool_decide (-1 < indexOf candidates id)%Z)) h) = h.
Proof.
  unfold bind at 1.
  destruct (elements_of_reads idList h) as [(la & elems & -> & Hla & ->)|[e ->]]; [|done].
  unfold bind. pose proof (get_reads x "id" h) as Hg.
  by destruct (get x "id" h) as [[id|e] h1]; simpl in *; subst h1.
Qed.

(** C10.  [filterArrayByIds] and [getIds] leave every object and array
    of the store as it was; what they return is an array at a location
    that was unused before, and the elements [filterArrayByIds] puts in it
    are elements of the given array, in its order. *)
Theorem helpers_leave_arguments_alone (h : heap) :
  (∀ ids array : value,
     allocated h array →
     h ⊆ snd (filterArrayByIds ids array h)
     ∧ ∀ v, fst (filterArrayByIds ids array h) = Ok v →
         ∃ r la elems kept,
           v = VRef r ∧ h !! r = None
           ∧ array = VRef la ∧ h !! la = Some (CArr elems)
           ∧ snd (filterArrayByIds ids array h) !! r = Some (CArr kept)
           ∧ sublist kept elems)
  ∧ (∀ datasources : value,
       h ⊆ snd (getIds datasources h)
       ∧ ∀ v, fst (getIds datasources h) = Ok v →
           ∃ r ids,
             v = VRef r ∧ h !! r = None
             ∧ snd (getIds datasources h) !! r = Some (CArr ids)).
Proof.
  split.
  - intros ids array Halloc.
    destruct (filterArrayByIds ids array h) as [res h'] eqn:Hrun. simpl.
    unfold filterArrayByIds in Hrun. unfold bind at 1 in Hrun.
    destruct (isArray_reads ids h) as [[|] Hb]; rewrite Hb in Hrun;
      unfold bind at 1, ret in Hrun; cbv beta iota in Hrun.
    + match type of Hrun with Array_filter array ?cb h = _ =>
        destruct (Array_filter_frame array cb h (filter_callback_reads ids))
          as [[e He]|(r & la & elems & kept & -> & Hla & Hr & Hsub & He)];
        rewrite He in Hrun
      end; injection Hrun as <- <-.
      * split; [done|]. intros v [=].
      * split; [by apply insert_subseteq|]. intros v [= <-].
        exists r, la, elems, kept. rewrite lookup_insert_eq. auto 10.
    + destruct (alloc_fresh (CArr [ids]) h) as (l0 & Ha & Hl0). rewrite Ha in Hrun.
      cbv beta iota in Hrun.
      match type of Hrun with Array_filter array ?cb ?h1 = _ =>
        destruct (Array_filter_frame array cb h1 (filter_callback_reads (VRef l0)))
          as [[e He]|(r & la & elems & kept & -> & Hla & Hr & Hsub & He)];
        rewrite He in Hrun
      end; injection Hrun as <- <-.
      * split; [by apply insert_subseteq|]. intros v [=].
      * assert (la ≠ l0) as Hne.
        { intros ->. simpl in Halloc. rewrite Hl0 in Halloc. by destruct Halloc. }
        rewrite lookup_insert_ne in Hla by done.
        assert (h !! r = None) as Hr'.
        { destruct (decide (l0 = r)) as [<-|]; [done|].
          by rewrite lookup_insert_ne in Hr. }
        split.
        { trans (<[l0 := CArr [ids]]> h); by apply insert_subseteq. }
        intros v [= <-]. exists r, la, elems, kept.
        rewrite lookup_insert_eq. auto 10.
  - intros datasources.
    destruct (getIds datasources h) as [res h'] eqn:Hrun. simpl.
    unfold getIds in Hrun. unfold bind at 1 in Hrun.
    destruct (isArray_reads datasources h) as [[|] Hb]; rewrite Hb in Hrun;
      unfold bind at 1, ret in Hrun; cbv beta iota in Hrun.
    + destruct (Array_map_frame datasources (λ d, get d "id") h (λ x h0, get_reads x "id" h0))
        as [[e He]|(r & mapped & Hr & He)]; rewrite He in Hrun; injection Hrun as <- <-.
      * split; [done|]. intros v [=].
      * split; [by apply insert_subseteq|]. intros v [= <-].
        exists r, mapped. by rewrite lookup_insert_eq.
    + destruct (alloc_fresh (CArr [datasources]) h) as (l0 & Ha & Hl0). rewrite Ha in Hrun.
      cbv beta iota in Hrun.
      destruct (Array_map_frame (VRef l0) (λ d, get d "id") (<[l0 := CArr [datasources]]> h)
                  (λ x h0, get_reads x "id" h0))
        as [[e He]|(r & mapped & Hr & He)]; rewrite He in Hrun; injection Hrun as <- <-.
      * split; [by apply insert_subseteq|]. intros v [=].
      * assert (h !! r = None) as Hr'.
        { destruct (decide (l0 = r)) as [<-|]; [done|].
          by rewrite lookup_insert_ne in Hr. }
        split.
        { trans (<[l0 := CArr [datasources]]> h); by apply insert_subseteq. }
        intros v [= <-]. exists r, mapped. by rewrite lookup_insert_eq.
Qed.

(** ** Escaping *)

Lemma in_range_spec (lo hi c : N) : in_range lo hi c = true ↔ lo ≤ c ≤ hi.
Proof. unfold in_range. rewrite andb_true_iff, !N.leb_le. done. Qed.

Lemma is_unescaped_ascii (c : code_unit) : is_unescaped c = true → c < 128 ∧ c ≠ 37.
Proof.
  unfold is_unescaped, is_alpha, is_digit, is_mark.
  rewrite !orb_true_iff, !in_range_spec, bool_decide_eq_true.
  intros [[[?|?]|?]|Hm]; try lia.
  repeat (apply elem_of_cons in Hm as [->|Hm]); try lia.
  by apply elem_of_nil in Hm.
Qed.

Lemma is_unescaped_pchar (c : code_unit) : is_unescaped c = true → is_pchar c = true.
Proof.
  unfold is_unescaped, is_pchar, is_mark.
  rewrite !orb_true_iff, !bool_decide_eq_true.
  intros [[?|?]|Hm]; [auto | auto |].
  repeat (apply elem_of_cons in Hm as [->|Hm]);
    try (by apply elem_of_nil in Hm);
    first [ left; left; right; set_solver | left; right; set_solver ].
Qed.

Lemma is_unescaped_not_surrogate (c : code_unit) :
  is_unescaped c = true →
  is_trailing_surrogate c = false ∧ is_leading_surrogate c = false.
Proof.
  intros [Hc _]%is_unescaped_ascii.
  unfold is_trailing_surrogate, is_leading_surrogate.
  split; apply not_true_is_false; rewrite in_range_spec; lia.
Qed.

Lemma hex_digit_hexdig (d : N) : is_hexdig (hex_digit d) = true.
Proof.
  unfold hex_digit, is_hexdig, is_digit.
  assert (N.land d 0xF < 16) as Hd.
  { change 0xF with (N.ones 4). rewrite N.land_ones. by apply N.mod_lt. }
  destruct (N.ltb_spec (N.land d 0xF) 10).
  - apply orb_true_iff; left. apply orb_true_iff; left. apply in_range_spec. lia.
  - apply orb_true_iff; left. apply orb_true_iff; right. apply in_range_spec. lia.
Qed.

Lemma is_segment_percent (octets : list N) (r : jsstring) :
  is_segment (percent octets ++ r) = is_segment r.
Proof.
  induction octets as [|o octets IH]; [done|].
  change (percent (o :: octets) ++ r)
    with (37 :: hex_digit (N.shiftr o 4) :: hex_digit o :: (percent octets ++ r)).
  cbn [is_segment N.eqb Pos.eqb]. by rewrite !hex_digit_hexdig, IH.
Qed.

(** A string is escaped exactly when each of its surrogates is paired. *)
Lemma encodeURIComponent_defined (s : jsstring) :
  if well_formed s
  then ∃ escaped, encodeURIComponent s = Ok escaped
  else encodeURIComponent s = Throw URIError.
Proof.
  remember (List.length s) as n eqn:Hn.
  assert (List.length s ≤ n)%nat as Hlen by lia. clear Hn.
  revert s Hlen. induction n as [|n IH]; intros [|c rest] Hlen; simpl in *;
    try lia; eauto.
  assert (∀ f : jsstring → jsstring,
            if well_formed rest
            then ∃ escaped, match encodeURIComponent rest with
                            | Ok r => Ok (f r)
                            | Throw e => Throw e
                            end = Ok escaped
            else match encodeURIComponent rest with
                 | Ok r => Ok (f r)
                 | Throw e => Throw e
                 end = Throw URIError) as Hrest.
  { intros f. specialize (IH rest ltac:(lia)).
    destruct (well_formed rest); [destruct IH as [? ->]|rewrite IH]; eauto. }
  destruct (is_unescaped c) eqn:Hu.
  { destruct (is_unescaped_not_surrogate c Hu) as [-> ->]. apply Hrest. }
  destruct (is_trailing_surrogate c); [done|].
  destruct (is_leading_surrogate c); [|apply Hrest].
  destruct rest as [|second rest]; [done|].
  destruct (is_trailing_surrogate second); simpl; [|done].
  specialize (IH rest ltac:(simpl in Hlen; lia)).
  destruct (well_formed rest); [destruct IH as [? ->]|rewrite IH]; eauto.
Qed.

(** Whatever comes out of the escaping is a path segment. *)
Lemma encodeURIComponent_segment (s escaped : jsstring) :
  encodeURIComponent s = Ok escaped → is_segment escaped = true.
Proof.
  remember (List.length s) as n eqn:Hn.
  assert (List.length s ≤ n)%nat as Hlen by lia. clear Hn.
  revert s escaped Hlen. induction n as [|n IH]; intros [|c rest] escaped Hlen; simpl in *;
    try lia; try (by intros [= <-]).
  destruct (is_unescaped c) eqn:Hu.
  { destruct (encodeURIComponent rest) as [r|] eqn:Hr; intros [= <-].
    simpl. destruct (is_unescaped_ascii c Hu) as [_ Hc].
    apply N.eqb_neq in Hc. rewrite Hc, (is_unescaped_pchar c Hu). simpl.
    apply (IH rest); [lia | done]. }
  destruct (is_trailing_surrogate c); [done|].
  destruct (is_leading_surrogate c).
  - destruct rest as [|second rest]; [done|].
    destruct (is_trailing_surrogate second); [|done].
    destruct (encodeURIComponent rest) as [r|] eqn:Hr; intros [= <-].
    rewrite is_segment_percent. apply (IH rest); [simpl in Hlen; lia | done].
  - destruct (encodeURIComponent rest) as [r|] eqn:Hr; intros [= <-].
    rewrite is_segment_percent. apply (IH rest); [lia | done].
Qed.

Lemma is_pchar_not_delimiter (c : code_unit) :
  is_pchar c = true → is_delimiter c = false.
Proof.
  intros Hp. unfold is_delimiter. apply bool_decide_eq_false. intros Hd.
  repeat (apply elem_of_cons in Hd as [->|Hd]); try discriminate Hp.
  by apply elem_of_nil in Hd.
Qed.

Lemma is_hexdig_not_delimiter (c : code_unit) :
  is_hexdig c = true → is_delimiter c = false.
Proof.
  intros Hp. unfold is_delimiter. apply bool_decide_eq_false. intros Hd.
  repeat (apply elem_of_cons in Hd as [->|Hd]); try discriminate Hp.
  by apply elem_of_nil in Hd.
Qed.

Lemma is_segment_no_delimiter (s : jsstring) :
  is_segment s = true → Forall (λ c, is_delimiter c = false) s.
Proof.
  remember (List.length s) as n eqn:Hn.
  assert (List.length s ≤ n)%nat as Hlen by lia. clear Hn.
  revert s Hlen. induction n as [|n IH]; intros [|c rest] Hlen; simpl in *;
    try lia; try (intros _; apply List.Forall_nil).
  destruct (N.eqb_spec c 37) as [->|Hc].
  - destruct rest as [|x [|y rest]]; try done. simpl in Hlen.
    intros [[Hx Hy]%andb_true_iff Hrest]%andb_true_iff.
    repeat constructor; auto using is_hexdig_not_delimiter.
    apply IH; [lia | done].
  - intros [Hp Hrest]%andb_true_iff.
    constructor; [by apply is_pchar_not_delimiter|]. apply IH; [lia | done].
Qed.

(** ** The asynchronous operations *)

Section ServiceProperties.

Variable GET_DATASOURCES_URL : jsstring.
Variable registry : Type.
Variable respond : request → registry → heap → reply * registry * heap.

Implicit Type w : world registry.

(** The state left behind by one request. *)
Lemma http_run (config : request) w :
  ∃ answer remote' store',
    respond config (remote w) (store w) = (answer, remote', store')
    ∧ http respond config w
      = (match answer with
         | Resolve r => Fulfilled r
         | Reject e => Rejected (Failure e)
         end,
         {| store := store'; sent := sent w ++ [(config, store w)]; remote := remote' |}).
Proof.
  unfold http. destruct (respond config (remote w) (store w)) as [[answer remote'] store'].
  eauto.
Qed.

(** An operation that unwraps the answer to one request. *)
Lemma unwrapping_run (config : request) w :
  ∃ answer remote' store',
    respond config (remote w) (store w) = (answer, remote', store')
    ∧ (let '(p, w') := http respond config w in (Returned (then_ p unwrap), w'))
      = (Returned match answer with
                  | Resolve r => Fulfilled (data r)
                  | Reject e => Rejected (Failure e)
                  end,
         {| store := store'; sent := sent w ++ [(config, store w)]; remote := remote' |}).
Proof.
  destruct (http_run config w) as (answer & remote' & store' & Hanswer & ->).
  exists answer, remote', store'. split; [done|]. by destruct answer.
Qed.

Lemma unwrapping_propagates (config : request) :
  propagates_failure respond
    (λ w, let '(p, w') := http respond config w in (Returned (then_ p unwrap), w'))
    config.
Proof.
  intros w. destruct (unwrapping_run config w) as (answer & remote' & store' & Hanswer & ->).
  simpl. split; [done|]. split; [done|]. split.
  - intros e. by destruct answer.
  - intros e remote'' store''. rewrite Hanswer. by intros [= -> _ _].
Qed.

(** C4.  [findAll] sends one [GET] request to the base address with
    the query parameter [type] set to ["UserDatasource"]; when the
    transport answers, the promise is fulfilled with the [data] of the
    response. *)
Theorem findAll_requests_user_datasources w :
  let config := {| method := GET;
                   url := GET_DATASOURCES_URL;
                   params := {[ "type" := VStr (lit "UserDatasource") ]};
                   body := VUndefined |} in
  sent (snd (findAll GET_DATASOURCES_URL respond w)) = sent w ++ [(config, store w)]
  ∧ ∀ r remote' store',
      respond config (remote w) (store w) = (Resolve r, remote', store') →
      fst (findAll GET_DATASOURCES_URL respond w) = Returned (Fulfilled (data r)).
Proof.
  intros config. subst config. unfold findAll, http_get, USER_TYPE.
  match goal with |- context [http respond ?c w] =>
    destruct (unwrapping_run c w) as (answer & remote' & store' & Hanswer & ->) end.
  split; [done|]. intros r remote'' store''. rewrite Hanswer. by intros [= -> _ _].
Qed.

(** C5.  [save] sends one [POST] request to the base address whose
    body is the given datasource, read from the store as the caller
    left it; when the transport answers, the promise is fulfilled with
    the [data] of the response. *)
Theorem save_posts_entity (datasource : value) w :
  let config := {| method := POST;
                   url := GET_DATASOURCES_URL;
                   params := ∅;
                   body := datasource |} in
  sent (snd (save GET_DATASOURCES_URL respond datasource w)) = sent w ++ [(config, store w)]
  ∧ ∀ r remote' store',
      respond config (remote w) (store w) = (Resolve r, remote', store') →
      fst (save GET_DATASOURCES_URL respond datasource w) = Returned (Fulfilled (data r)).
Proof.
  intros config. subst config. unfold save, http_post.
  match goal with |- context [http respond ?c w] =>
    destruct (unwrapping_run c w) as (answer & remote' & store' & Hanswer & ->) end.
  split; [done|]. intros r remote'' store''. rewrite Hanswer. by intros [= -> _ _].
Qed.

(** C7.  [findById] sends one [GET] request to the base address
    followed by ["/"] and the id as it is; when the transport answers,
    the promise is fulfilled with the [data] of the response. *)
Theorem findById_requests_unescaped (id : jsstring) w :
  let config := {| method := GET;
                   url := GET_DATASOURCES_URL ++ lit "/" ++ id;
                   params := ∅;
                   body := VUndefined |} in
  sent (snd (findById GET_DATASOURCES_URL respond id w)) = sent w ++ [(config, store w)]
  ∧ ∀ r remote' store',
      respond config (remote w) (store w) = (Resolve r, remote', store') →
      fst (findById GET_DATASOURCES_URL respond id w) = Returned (Fulfilled (data r)).
Proof.
  intros config. subst config. unfold findById, http_get.
  match goal with |- context [http respond ?c w] =>
    destruct (unwrapping_run c w) as (answer & remote' & store' & Hanswer & ->) end.
  split; [done|]. intros r remote'' store''. rewrite Hanswer. by intros [= -> _ _].
Qed.

(** [deleteById] on an id that can be escaped. *)
Lemma deleteById_run (id escaped : jsstring) w :
  encodeURIComponent id = Ok escaped →
  deleteById GET_DATASOURCES_URL respond id w
  = (let '(p, w') :=
       http respond {| method := DELETE;
                       url := GET_DATASOURCES_URL ++ lit "/" ++ escaped;
                       params := ∅;
                       body := VUndefined |} w in
     (Returned p, w')).
Proof. intros Hid. unfold deleteById. by rewrite Hid. Qed.

(** C6, amended.  For an id in which every surrogate is paired,
    [deleteById] sends one [DELETE] request to the base address followed
    by ["/"] and the escaped id, which is a single path segment free of
    [/], [?] and [#]. *)
Theorem deleteById_requests_escaped (id : jsstring) w :
  well_formed id = true →
  ∃ escaped,
    encodeURIComponent id = Ok escaped
    ∧ is_segment escaped = true
    ∧ Forall (λ c, is_delimiter c = false) escaped
    ∧ sent (snd (deleteById GET_DATASOURCES_URL respond id w))
      = sent w ++ [({| method := DELETE;
                       url := GET_DATASOURCES_URL ++ lit "/" ++ escaped;
                       params := ∅;
                       body := VUndefined |}, store w)]
    ∧ ∃ p, fst (deleteById GET_DATASOURCES_URL respond id w) = Returned p.
Proof.
  intros Hwf. pose proof (encodeURIComponent_defined id) as Hdef.
  rewrite Hwf in Hdef. destruct Hdef as [escaped Hid].
  exists escaped. split; [done|].
  pose proof (encodeURIComponent_segment _ _ Hid) as Hseg.
  split; [done|]. split; [by apply is_segment_no_delimiter|].
  rewrite (deleteById_run _ _ _ Hid).
  match goal with |- context [http respond ?c w] =>
    destruct (http_run c w) as (answer & remote' & store' & _ & ->) end.
  simpl. eauto.
Qed.

(** C8, amended.  [findAll], [findById] and [save] on any argument, and
    [deleteById] on an id in which every surrogate is paired, send their
    request once, never throw, never reject with an error of their own,
    and reject with the failure value of the transport when it fails.
    [deleteById] on any other id throws [URIError] and sends nothing. *)
Theorem failures_pass_through :
  propagates_failure respond (findAll GET_DATASOURCES_URL respond)
    {| method := GET;
       url := GET_DATASOURCES_URL;
       params := {[ "type" := VStr (lit "UserDatasource") ]};
       body := VUndefined |}
  ∧ (∀ id,
       propagates_failure respond (findById GET_DATASOURCES_URL respond id)
         {| method := GET;
            url := GET_DATASOURCES_URL ++ lit "/" ++ id;
            params := ∅;
            body := VUndefined |})
  ∧ (∀ datasource,
       propagates_failure respond (save GET_DATASOURCES_URL respond datasource)
         {| method := POST;
            url := GET_DATASOURCES_URL;
            params := ∅;
            body := datasource |})
  ∧ (∀ id,
       well_formed id = true →
       ∃ escaped,
         encodeURIComponent id = Ok escaped
         ∧ propagates_failure respond (deleteById GET_DATASOURCES_URL respond id)
             {| method := DELETE;
                url := GET_DATASOURCES_URL ++ lit "/" ++ escaped;
                params := ∅;
                body := VUndefined |})
  ∧ (∀ id w,
       well_formed id = false →
       deleteById GET_DATASOURCES_URL respond id w = (Thrown URIError, w)).
Proof.
  split; [apply unwrapping_propagates|].
  split; [intros id; apply unwrapping_propagates|].
  split; [intros datasource; apply unwrapping_propagates|].
  split; cycle 1.
  { intros id w Hwf. pose proof (encodeURIComponent_defined id) as Hdef.
    rewrite Hwf in Hdef. unfold deleteById. by rewrite Hdef. }
  intros id Hwf. pose proof (encodeURIComponent_defined id) as Hdef.
  rewrite Hwf in Hdef. destruct Hdef as [escaped Hid].
  exists escaped. split; [done|]. intros w.
  rewrite (deleteById_run _ _ _ Hid).
  match goal with |- context [http respond ?c w] =>
    destruct (http_run c w) as (answer & remote' & store' & Hanswer & ->) end.
  cbn [fst snd sent]. split; [done|]. split; [done|]. split.
  - intros e. by destruct answer.
  - intros e remote'' store''. rewrite Hanswer. by intros [= -> _ _].
Qed.

(** C9, amended.  When the transport answers the request of
    [deleteById], the promise is fulfilled with the response itself,
    as the transport gave it. *)
Theorem deleteById_resolves_with_response (id escaped : jsstring) w
    (r : response) (remote' : registry) (store' : heap) :
  encodeURIComponent id = Ok escaped →
  respond {| method := DELETE;
             url := GET_DATASOURCES_URL ++ lit "/" ++ escaped;
             params := ∅;
             body := VUndefined |} (remote w) (store w)
  = (Resolve r, remote', store') →
  fst (deleteById GET_DATASOURCES_URL respond id w) = Returned (Fulfilled r).
Proof.
  intros Hid Hanswer. rewrite (deleteById_run _ _ _ Hid).
  match goal with |- context [http respond ?c w] =>
    destruct (http_run c w) as (answer & remote'' & store'' & Hanswer' & ->) end.
  rewrite Hanswer in Hanswer'. by injection Hanswer' as <- _ _.
Qed.

End ServiceProperties.

(** ** The statements at work *)

Lemma demo_datasources :
  Forall (is_datasource demo_store) [VRef 1%positive; VRef 2%positive; VRef 3%positive].
Proof. repeat constructor; eexists _, _; (split; [reflexivity|]); reflexivity. Qed.

Lemma filterArrayByIds_selects_witness :
  ids_denote demo_store (VRef 5%positive) [lit "c"; lit "a"]
  ∧ demo_store !! 4%positive
    = Some (CArr [VRef 1%positive; VRef 2%positive; VRef 3%positive])
  ∧ ∃ r h',
      filterArrayByIds (VRef 5%positive) (VRef 4%positive) demo_store = (Ok (VRef r), h')
      ∧ h' !! r = Some (CArr [VRef 1%positive; VRef 3%positive]).
Proof.
  assert (ids_denote demo_store (VRef 5%positive) [lit "c"; lit "a"]) as Hids.
  { apply ids_array. reflexivity. }
  split; [exact Hids|]. split; [reflexivity|].
  destruct (filterArrayByIds_selects demo_store (VRef 5%positive) [lit "c"; lit "a"]
              4%positive [VRef 1%positive; VRef 2%positive; VRef 3%positive]
              Hids eq_refl demo_datasources) as (r & h' & Hrun & Hr & _).
  exists r, h'. split; [exact Hrun | exact Hr].
Defined.

Lemma getIds_maps_witness :
  datasources_denote demo_store (VRef 1%positive) [VRef 1%positive]
  ∧ datasources_denote demo_store (VRef 7%positive)
      [VRef 1%positive; VRef 6%positive; VRef 1%positive]
  ∧ (∃ r h',
       getIds (VRef 1%positive) demo_store = (Ok (VRef r), h')
       ∧ h' !! r = Some (CArr [VStr (lit "a")]))
  ∧ (∃ r h',
       getIds (VRef 7%positive) demo_store = (Ok (VRef r), h')
       ∧ h' !! r = Some (CArr [VStr (lit "a"); VUndefined; VStr (lit "a")])).
Proof.
  assert (datasources_denote demo_store (VRef 1%positive) [VRef 1%positive]) as Hone.
  { apply datasources_single. eexists _, _. split; reflexivity. }
  assert (datasources_denote demo_store (VRef 7%positive)
            [VRef 1%positive; VRef 6%positive; VRef 1%positive]) as Hmany.
  { apply datasources_array; [reflexivity|].
    repeat constructor; eexists _, _; (split; [reflexivity|]); reflexivity. }
  split; [exact Hone|]. split; [exact Hmany|]. split.
  - destruct (getIds_maps demo_store _ _ Hone) as (r & h' & Hrun & Hr).
    exists r, h'. split; [exact Hrun | exact Hr].
  - destruct (getIds_maps demo_store _ _ Hmany) as (r & h' & Hrun & Hr).
    exists r, h'. split; [exact Hrun | exact Hr].
Defined.

Lemma helpers_leave_arguments_alone_witness :
  allocated demo_store (VRef 4%positive)
  ∧ demo_store ⊆ snd (filterArrayByIds (VStr (lit "b")) (VRef 4%positive) demo_store)
  ∧ demo_store ⊆ snd (getIds (VRef 6%positive) demo_store)
  ∧ ∃ r kept,
      fst (filterArrayByIds (VStr (lit "b")) (VRef 4%positive) demo_store) = Ok (VRef r)
      ∧ demo_store !! r = None
      ∧ snd (filterArrayByIds (VStr (lit "b")) (VRef 4%positive) demo_store) !! r
        = Some (CArr kept)
      ∧ sublist kept [VRef 1%positive; VRef 2%positive; VRef 3%positive].
Proof.
  assert (allocated demo_store (VRef 4%positive)) as Halloc.
  { simpl. eexists. reflexivity. }
  destruct (helpers_leave_arguments_alone demo_store) as [Hfilter Hget].
  destruct (Hfilter (VStr (lit "b")) (VRef 4%positive) Halloc) as [Hframe Hresult].
  split; [exact Halloc|]. split; [exact Hframe|].
  split; [exact (proj1 (Hget (VRef 6%positive)))|].
  destruct (Hresult (VRef 9%positive) eq_refl)
    as (r & la & elems & kept & Hv & Hr & Hla & Helems & Hkept & Hsub).
  injection Hla as <-.
  assert (elems = [VRef 1%positive; VRef 2%positive; VRef 3%positive]) as ->.
  { change (demo_store !! 4%positive)
      with (Some (CArr [VRef 1%positive; VRef 2%positive; VRef 3%positive])) in Helems.
    by injection Helems as <-. }
  exists r, kept. injection Hv as <-.
  split; [reflexivity|]. split; [exact Hr|]. split; [exact Hkept | exact Hsub].
Defined.

Lemma findAll_requests_user_datasources_witness :
  answering {| method := GET; url := demo_url;
               params := {[ "type" := VStr (lit "UserDatasource") ]};
               body := VUndefined |} tt demo_store
  = (Resolve {| data := VRef 1%positive; status := 200; statusText := lit "OK" |},
     tt, demo_store)
  ∧ fst (findAll demo_url answering demo_world) = Returned (Fulfilled (VRef 1%positive)).
Proof.
  split; [reflexivity|].
  exact (proj2 (findAll_requests_user_datasources demo_url unit answering demo_world)
           _ _ _ eq_refl).
Defined.

Lemma save_posts_entity_witness :
  answering {| method := POST; url := demo_url; params := ∅; body := VRef 6%positive |}
    tt demo_store
  = (Resolve {| data := VRef 1%positive; status := 200; statusText := lit "OK" |},
     tt, demo_store)
  ∧ fst (save demo_url answering (VRef 6%positive) demo_world)
    = Returned (Fulfilled (VRef 1%positive)).
Proof.
  split; [reflexivity|].
  exact (proj2 (save_posts_entity demo_url unit answering (VRef 6%positive) demo_world)
           _ _ _ eq_refl).
Defined.

Lemma findById_requests_unescaped_witness :
  answering {| method := GET; url := demo_url ++ lit "/" ++ lit "a/b?c";
               params := ∅; body := VUndefined |} tt demo_store
  = (Resolve {| data := VRef 1%positive; status := 200; statusText := lit "OK" |},
     tt, demo_store)
  ∧ fst (findById demo_url answering (lit "a/b?c") demo_world)
    = Returned (Fulfilled (VRef 1%positive))
  ∧ sent (snd (findById demo_url answering (lit "a/b?c") demo_world))
    = [({| method := GET; url := lit "/proxy/v1/metadata/datasource/a/b?c";
           params := ∅; body := VUndefined |}, demo_store)].
Proof.
  split; [reflexivity|].
  destruct (findById_requests_unescaped demo_url unit answering (lit "a/b?c") demo_world)
    as [Hsent Hdata].
  split; [exact (Hdata _ _ _ eq_refl) | exact Hsent].
Defined.

Lemma deleteById_requests_escaped_witness :
  well_formed (lit "a/b?c") = true
  ∧ sent (snd (deleteById demo_url answering (lit "a/b?c") demo_world))
    = [({| method := DELETE; url := lit "/proxy/v1/metadata/datasource/a%2Fb%3Fc";
           params := ∅; body := VUndefined |}, demo_store)].
Proof.
  split; [reflexivity|].
  destruct (deleteById_requests_escaped demo_url unit answering (lit "a/b?c") demo_world eq_refl)
    as (escaped & Hid & _ & _ & Hsent & _).
  injection Hid as <-. exact Hsent.
Defined.

Lemma failures_pass_through_witness :
  well_formed (lit "a/b?c") = true
  ∧ well_formed [0xDBFF] = false
  ∧ fst (deleteById demo_url refusing (lit "a/b?c") demo_world)
    = Returned (Rejected (Failure (VStr (lit "503"))))
  ∧ fst (findAll demo_url refusing demo_world)
    = Returned (Rejected (Failure (VStr (lit "503"))))
  ∧ deleteById demo_url refusing [0xDBFF] demo_world = (Thrown URIError, demo_world).
Proof.
  split; [reflexivity|]. split; [reflexivity|].
  destruct (failures_pass_through demo_url unit refusing)
    as (Hall & _ & _ & Hdelete & Hthrows).
  split; [|split].
  - destruct (Hdelete (lit "a/b?c") eq_refl) as (escaped & Hid & Hprop).
    injection Hid as <-.
    exact (proj2 (proj2 (proj2 (Hprop demo_world))) _ _ _ eq_refl).
  - exact (proj2 (proj2 (proj2 (Hall demo_world))) _ _ _ eq_refl).
  - exact (Hthrows [0xDBFF] demo_world eq_refl).
Defined.

Lemma deleteById_resolves_with_response_witness :
  encodeURIComponent (lit "a") = Ok (lit "a")
  ∧ answering {| method := DELETE; url := demo_url ++ lit "/" ++ lit "a";
                 params := ∅; body := VUndefined |} tt demo_store
    = (Resolve {| data := VRef 1%positive; status := 200; statusText := lit "OK" |},
       tt, demo_store)
  ∧ fst (deleteById demo_url answering (lit "a") demo_world)
    = Returned (Fulfilled {| data := VRef 1%positive; status := 200; statusText := lit "OK" |}).
Proof.
  split; [reflexivity|]. split; [reflexivity|].
  exact (deleteById_resolves_with_response demo_url unit answering
           (lit "a") (lit "a") demo_world _ _ _ eq_refl eq_refl).
Defined.

(** *** Escaping at work *)

Example encodeURIComponent_reserved :
  encodeURIComponent (lit "a/b?c#d e") = Ok (lit "a%2Fb%3Fc%23d%20e").
Proof. reflexivity. Qed.

Example encodeURIComponent_marks :
  encodeURIComponent (lit "A-z_0.9!~*'()") = Ok (lit "A-z_0.9!~*'()").
Proof. reflexivity. Qed.

(** U+00E9, U+20AC and the pair for U+1F600. *)
Example encodeURIComponent_utf8 :
  encodeURIComponent [0xE9; 0x20AC; 0xD83D; 0xDE00]
  = Ok (lit "%C3%A9%E2%82%AC%F0%9F%98%80").
Proof. reflexivity. Qed.

Example filterArrayByIds_single_id :
  (let '(r, h') := filterArrayByIds (VStr (lit "b")) (VRef 4%positive) demo_store in
   (r, h' !! 9%positive))
  = (Ok (VRef 9%positive), Some (CArr [VRef 2%positive])).
Proof. reflexivity. Qed.

Example filterArrayByIds_unknown_id :
  (let '(r, h') := filterArrayByIds (VStr (lit "z")) (VRef 4%positive) demo_store in
   (r, h' !! 9%positive))
  = (Ok (VRef 9%positive), Some (CArr [])).
Proof. reflexivity. Qed.

(** *** Where the statements stop *)

(** An id with a surrogate that has no partner is not escaped: the call
    throws and nothing is sent. *)
Lemma deleteById_unpaired_surrogate_sends_nothing :
  deleteById demo_url answering [0xD800] demo_world = (Thrown URIError, demo_world)
  ∧ ¬ ∃ config,
        sent (snd (deleteById demo_url answering [0xD800] demo_world))
        = sent demo_world ++ [config].
Proof.
  split; [reflexivity|]. intros [config Hsent]. discriminate Hsent.
Qed.

(** The same id makes [deleteById] raise an error of its own. *)
Lemma deleteById_unpaired_surrogate_throws :
  fst (deleteById demo_url refusing (lit "ds-" ++ [0xDC00]) demo_world) = Thrown URIError
  ∧ ¬ ∃ config,
        propagates_failure refusing
          (deleteById demo_url refusing (lit "ds-" ++ [0xDC00])) config.
Proof.
  split; [reflexivity|]. intros [config Hprop].
  destruct (Hprop demo_world) as (_ & Hthrown & _).
  by apply (Hthrown URIError).
Qed.

(** A registry that answers a deletion with an entity: the caller of
    [deleteById] receives the whole response, entity included. *)
Lemma deleteById_hands_over_response :
  fst (deleteById demo_url answering (lit "a") demo_world)
  = Returned (Fulfilled {| data := VRef 1%positive; status := 200; statusText := lit "OK" |})
  ∧ is_datasource demo_store (VRef 1%positive)
  ∧ ¬ carries_no_payload (fst (deleteById demo_url answering (lit "a") demo_world)).
Proof.
  split; [reflexivity|]. split.
  - eexists _, _. split; reflexivity.
  - intros Hnone. specialize (Hnone _ eq_refl). discriminate Hnone.
Qed.

(** ** The helpers on arguments of any shape *)

Lemma isArray_array_elements (v : value) (h : heap) :
  isArray v h = (Ok (bool_decide (is_Some (array_elements h v))), h).
Proof.
  destruct v as [| | | |l]; simpl; try done.
  destruct (h !! l) as [[|]|]; simpl; try done.
Qed.

Lemma elements_of_array_elements (v : value) (h : heap) :
  elements_of v h
  = (match array_elements h v with
     | Some elems => Ok elems
     | None => Throw TypeError
     end, h).
Proof.
  destruct v as [| | | |l]; simpl; try done.
  by destruct (h !! l) as [[|]|].
Qed.

Lemma get_id (v : value) (h : heap) :
  get v "id" h
  = (if is_nullish v then Throw TypeError else Ok (id_of h v), h).
Proof.
  destruct v as [| | | |l]; simpl; try done.
  unfold id_of. simpl. by destruct (h !! l) as [[|]|].
Qed.

(** A new array in the store does not change what any value's [id] reads
    as. *)
Lemma id_of_insert_array (h : heap) (l : loc) (elems : list value) (v : value) :
  h !! l = None → id_of (<[l := CArr elems]> h) v = id_of h v.
Proof.
  intros Hl. destruct v as [| | | |l']; try done.
  unfold id_of. simpl. destruct (decide (l = l')) as [<-|Hne].
  - by rewrite lookup_insert_eq, Hl.
  - by rewrite lookup_insert_ne.
Qed.

Lemma array_elements_insert (h : heap) (l : loc) (c : cell) (v : value) :
  h !! l = None → allocated h v →
  array_elements (<[l := c]> h) v = array_elements h v.
Proof.
  intros Hl Hv. destruct v as [| | | |l']; try done. simpl in *.
  rewrite lookup_insert_ne; [done|]. intros <-. rewrite Hl in Hv. by destruct Hv.
Qed.

Lemma filter_elems_outcome (cb : value → Js bool) (f : value → bool)
    (l : list value) (h : heap) :
  (∀ x, cb x h = (if is_nullish x then Throw TypeError else Ok (f x), h)) →
  filter_elems cb l h
  = (if existsb is_nullish l then Throw TypeError else Ok (List.filter f l), h).
Proof.
  intros Hcb. induction l as [|x l IH]; [done|].
  simpl. unfold bind at 1. rewrite Hcb.
  destruct (is_nullish x); [done|]. simpl.
  unfold bind at 1. rewrite IH.
  destruct (existsb is_nullish l); [done|]. unfold ret. by destruct (f x).
Qed.

Lemma map_elems_outcome (cb : value → Js value) (f : value → value)
    (l : list value) (h : heap) :
  (∀ x, cb x h = (if is_nullish x then Throw TypeError else Ok (f x), h)) →
  map_elems cb l h
  = (if existsb is_nullish l then Throw TypeError else Ok (f <$> l), h).
Proof.
  intros Hcb. induction l as [|x l IH]; [done|].
  simpl. unfold bind at 1. rewrite Hcb.
  destruct (is_nullish x); [done|]. simpl.
  unfold bind at 1. rewrite IH.
  by destruct (existsb is_nullish l).
Qed.

(** [array.filter] with the callback of [filterArrayByIds], the list of
    ids being the array at [li]. *)
Lemma Array_filter_outcome (h : heap) (li : loc) (candidates : list value) (array : value) :
  h !! li = Some (CArr candidates) →
  Array_filter array (λ datasource,
    candidates <- elements_of (VRef li) ;;
    id <- get datasource "id" ;;
    ret (bool_decide (-1 < indexOf candidates id)%Z)) h
  = match array_elements h array with
    | Some elems =>
        if existsb is_nullish elems then (Throw TypeError, h)
        else (Ok (VRef (fresh (dom h))),
              <[fresh (dom h) := CArr (select_by_id h candidates elems)]> h)
    | None => (Throw TypeError, h)
    end.
Proof.
  intros Hli. unfold Array_filter. unfold bind at 1.
  rewrite elements_of_array_elements.
  destruct (array_elements h array) as [elems|]; [|done].
  unfold bind at 1.
  rewrite (filter_elems_outcome _ (λ d, bool_decide (id_of h d ∈ candidates))).
  - by destruct (existsb is_nullish elems).
  - intros d. unfold bind at 1. simpl. rewrite Hli.
    unfold bind. rewrite get_id. destruct (is_nullish d); [done|].
    unfold ret. by rewrite indexOf_found.
Qed.

Lemma fresh_unused (h : heap) : h !! fresh (dom h) = None.
Proof. apply not_elem_of_dom, is_fresh. Qed.

Lemma select_by_id_insert_array (h : heap) (l : loc) (cs candidates elems : list value) :
  h !! l = None →
  select_by_id (<[l := CArr cs]> h) candidates elems = select_by_id h candidates elems.
Proof.
  intros Hl. unfold select_by_id. apply List.filter_ext. intros d.
  by rewrite id_of_insert_array.
Qed.

(** What [filterArrayByIds] does, whatever it is given. *)
Lemma filterArrayByIds_run (h : heap) (ids array : value) :
  allocated h array →
  filterArrayByIds ids array h
  = let h1 := with_wrapped h ids in
    match array_elements h array with
    | Some elems =>
        if existsb is_nullish elems then (Throw TypeError, h1)
        else (Ok (VRef (fresh (dom h1))),
              <[fresh (dom h1) := CArr (select_by_id h (as_list h ids) elems)]> h1)
    | None => (Throw TypeError, h1)
    end.
Proof.
  intros Halloc. unfold filterArrayByIds, with_wrapped, as_list.
  unfold bind at 1. rewrite isArray_array_elements.
  destruct (array_elements h ids) as [candidates|] eqn:Hids; simpl.
  - unfold bind at 1. simpl.
    destruct ids as [| | | |li]; try done. simpl in Hids.
    destruct (h !! li) as [[|cs]|] eqn:Hli; try done. injection Hids as ->.
    by rewrite (Array_filter_outcome h li candidates).
  - unfold bind at 1. unfold alloc at 1. cbv beta iota zeta.
    pose proof (fresh_unused h) as Hfresh.
    rewrite (Array_filter_outcome _ (fresh (dom h)) [ids]) by apply lookup_insert_eq.
    rewrite array_elements_insert by done.
    destruct (array_elements h array) as [elems|]; [|done].
    destruct (existsb is_nullish elems); [done|].
    by rewrite select_by_id_insert_array.
Qed.

(** What [getIds] does, whatever it is given. *)
Lemma getIds_run (h : heap) (datasources : value) :
  getIds datasources h
  = let h1 := with_wrapped h datasources in
    if existsb is_nullish (as_list h datasources) then (Throw TypeError, h1)
    else (Ok (VRef (fresh (dom h1))),
          <[fresh (dom h1) := CArr (id_of h <$> as_list h datasources)]> h1).
Proof.
  unfold getIds, with_wrapped, as_list.
  unfold bind at 1. rewrite isArray_array_elements.
  destruct (array_elements h datasources) as [elems|] eqn:Harr; simpl.
  - unfold bind at 1. simpl. unfold Array_map. unfold bind at 1.
    rewrite elements_of_array_elements, Harr. unfold bind at 1.
    rewrite (map_elems_outcome _ (id_of h)) by (intros x; apply get_id).
    by destruct (existsb is_nullish elems).
  - unfold bind at 1. unfold alloc at 1. cbv beta iota zeta.
    pose proof (fresh_unused h) as Hfresh.
    unfold Array_map. unfold bind at 1.
    rewrite elements_of_array_elements. simpl. rewrite lookup_insert_eq.
    unfold bind at 1.
    rewrite (map_elems_outcome _ (id_of (<[fresh (dom h) := CArr [datasources]]> h)))
      by (intros x; apply get_id).
    simpl. rewrite orb_false_r. destruct (is_nullish datasources); [done|].
    by rewrite id_of_insert_array.
Qed.

Lemma with_wrapped_includes (h : heap) (v : value) : h ⊆ with_wrapped h v.
Proof.
  unfold with_wrapped. destruct (array_elements h v); [done|].
  apply insert_subseteq, fresh_unused.
Qed.

Lemma existsb_is_nullish (l : list value) :
  existsb is_nullish l = true ↔ ∃ d, d ∈ l ∧ is_nullish d = true.
Proof.
  rewrite existsb_exists. split; intros (d & Hd & Hn); exists d;
    (split; [by apply list_elem_of_In | done]).
Qed.

Lemma existsb_is_nullish_false (l : list value) :
  Forall (λ d, is_nullish d = false) l → existsb is_nullish l = false.
Proof.
  intros Hall. apply not_true_is_false. intros (d & Hd & Hn)%existsb_is_nullish.
  rewrite Forall_forall in Hall. by rewrite (Hall d Hd) in Hn.
Qed.

(** X1.  With an array argument that points into the store,
    [filterArrayByIds] fails with a [TypeError] exactly when that argument
    is not an array or holds [undefined] or [null]; in every other case
    it returns a reference that was unused before. *)
Theorem filterArrayByIds_throws_exactly (h : heap) (ids array : value) :
  allocated h array →
  (fst (filterArrayByIds ids array h) = Throw TypeError
   ↔ array_elements h array = None
     ∨ ∃ elems d, array_elements h array = Some elems ∧ d ∈ elems ∧ is_nullish d = true)
  ∧ (fst (filterArrayByIds ids array h) ≠ Throw TypeError →
     ∃ r, fst (filterArrayByIds ids array h) = Ok (VRef r) ∧ h !! r = None).
Proof.
  intros Halloc. rewrite (filterArrayByIds_run h ids array Halloc). cbv zeta.
  destruct (array_elements h array) as [elems|].
  - destruct (existsb is_nullish elems) eqn:Hn; simpl.
    + split; [|done]. split; [|done]. intros _. right.
      apply existsb_is_nullish in Hn as (d & Hd & Hn). eauto.
    + split.
      * split; [done|]. intros [[=]|(elems' & d & [= <-] & Hd & Hd')].
        assert (existsb is_nullish elems = true) as Hn'
          by (apply existsb_is_nullish; eauto).
        congruence.
      * intros _. eexists. split; [done|].
        eapply lookup_weaken_None; [apply fresh_unused | apply with_wrapped_includes].
  - simpl. split; [|done]. split; auto.
Qed.

Lemma array_elements_allocated (h : heap) (v : value) (elems : list value) :
  array_elements h v = Some elems → allocated h v.
Proof.
  destruct v as [| | | |l]; try done. simpl.
  destruct (h !! l) as [c|]; [eauto | done].
Qed.

(** [filterArrayByIds] on an array without [undefined] and [null]. *)
Lemma filterArrayByIds_success (h : heap) (ids array : value) (elems : list value) :
  array_elements h array = Some elems →
  Forall (λ d, is_nullish d = false) elems →
  filterArrayByIds ids array h
  = (Ok (VRef (fresh (dom (with_wrapped h ids)))),
     <[fresh (dom (with_wrapped h ids)) := CArr (select_by_id h (as_list h ids) elems)]>
       (with_wrapped h ids)).
Proof.
  intros Harr Hall.
  rewrite (filterArrayByIds_run h ids array (array_elements_allocated _ _ _ Harr)).
  cbv zeta. by rewrite Harr, (existsb_is_nullish_false _ Hall).
Qed.

(** X2.  Whatever [ids] is, on an array without [undefined] and [null]
    [filterArrayByIds] keeps exactly the elements whose [id] is strictly
    equal to [ids] itself or, when [ids] is an array, to one of its
    elements.  So [undefined] as [ids] selects the elements that have no
    [id]. *)
Theorem filterArrayByIds_selects_by_strict_equality
    (h : heap) (ids array : value) (elems : list value) :
  array_elements h array = Some elems →
  Forall (λ d, is_nullish d = false) elems →
  ∃ (r : loc) (h' : heap),
    filterArrayByIds ids array h = (Ok (VRef r), h')
    ∧ h' !! r = Some (CArr (select_by_id h (as_list h ids) elems))
    ∧ (ids = VUndefined →
       select_by_id h (as_list h ids) elems = List.filter (is_unsaved h) elems).
Proof.
  intros Harr Hall. rewrite (filterArrayByIds_success h ids array elems Harr Hall).
  eexists _, _. split; [done|]. split; [by rewrite lookup_insert_eq|].
  intros ->. unfold select_by_id, as_list. simpl.
  apply List.filter_ext. intros d. unfold is_unsaved.
  apply bool_decide_ext. by rewrite list_elem_of_singleton.
Qed.

Lemma select_by_id_sublist (h : heap) (c1 c2 elems : list value) :
  (∀ v, v ∈ c1 → v ∈ c2) →
  sublist (select_by_id h c1 elems) (select_by_id h c2 elems).
Proof.
  intros Hsub. induction elems as [|d elems IH]; simpl; [constructor|].
  destruct (bool_decide_reflect (id_of h d ∈ c1)) as [Hin|Hnin].
  - rewrite bool_decide_eq_true_2 by auto. by constructor.
  - destruct (bool_decide (id_of h d ∈ c2)); [by constructor | done].
Qed.

Lemma select_by_id_same_members (h : heap) (c1 c2 elems : list value) :
  (∀ v, v ∈ c1 ↔ v ∈ c2) →
  select_by_id h c1 elems = select_by_id h c2 elems.
Proof.
  intros Hsame. apply List.filter_ext. intros d. apply bool_decide_ext, Hsame.
Qed.

(** X3.  The selection of [filterArrayByIds] depends on the ids as a set
    only: more ids select a superlist, and two arguments with the same
    members, in any order and with any repetition, select the same
    elements. *)
Theorem filterArrayByIds_ids_as_a_set
    (h : heap) (ids1 ids2 array : value) (elems : list value) :
  array_elements h array = Some elems →
  Forall (λ d, is_nullish d = false) elems →
  ∃ (r1 r2 : loc) (h1 h2 : heap) (kept1 kept2 : list value),
    filterArrayByIds ids1 array h = (Ok (VRef r1), h1)
    ∧ filterArrayByIds ids2 array h = (Ok (VRef r2), h2)
    ∧ h1 !! r1 = Some (CArr kept1)
    ∧ h2 !! r2 = Some (CArr kept2)
    ∧ ((∀ v, v ∈ as_list h ids1 → v ∈ as_list h ids2) → sublist kept1 kept2)
    ∧ ((∀ v, v ∈ as_list h ids1 ↔ v ∈ as_list h ids2) → kept1 = kept2).
Proof.
  intros Harr Hall.
  rewrite (filterArrayByIds_success h ids1 array elems Harr Hall).
  rewrite (filterArrayByIds_success h ids2 array elems Harr Hall).
  eexists _, _, _, _, _, _. split; [done|]. split; [done|].
  split; [by rewrite lookup_insert_eq|]. split; [by rewrite lookup_insert_eq|].
  split; [apply select_by_id_sublist | apply select_by_id_same_members].
Qed.

(** X4.  [getIds] fails with a [TypeError] exactly when its argument is
    [undefined] or [null] or is an array holding one of them; otherwise
    it returns, at a location unused before, one entry per element: its
    [id], or [undefined] when it has none. *)
Theorem getIds_throws_exactly (h : heap) (datasources : value) :
  if existsb is_nullish (as_list h datasources)
  then fst (getIds datasources h) = Throw TypeError
  else ∃ (r : loc) (h' : heap),
         getIds datasources h = (Ok (VRef r), h')
         ∧ h !! r = None
         ∧ h' !! r = Some (CArr (id_of h <$> as_list h datasources)).
Proof.
  rewrite getIds_run. cbv zeta.
  destruct (existsb is_nullish (as_list h datasources)); [done|].
  eexists _, _. split; [done|]. split; [|by rewrite lookup_insert_eq].
  eapply lookup_weaken_None; [apply fresh_unused | apply with_wrapped_includes].
Qed.

Lemma select_by_own_ids (h : heap) (elems : list value) :
  select_by_id h (id_of h <$> elems) elems = elems.
Proof.
  unfold select_by_id.
  assert (∀ l, (∀ d, d ∈ l → d ∈ elems) →
               List.filter (λ d, bool_decide (id_of h d ∈ id_of h <$> elems)) l = l)
    as Hall.
  { induction l as [|d l IH]; intros Hsub; [done|]. simpl.
    rewrite bool_decide_eq_true_2.
    - f_equal. apply IH. intros d' Hd'. apply Hsub. by right.
    - apply list_elem_of_fmap. exists d. split; [done|]. apply Hsub. left. }
  by apply Hall.
Qed.

(** X5.  Filtering an array by the ids that [getIds] reads from it gives
    the whole array back, elements without an [id] included, in a new
    array. *)
Theorem filterArrayByIds_getIds_round_trip (h : heap) (array : value) (elems : list value) :
  array_elements h array = Some elems →
  Forall (λ d, is_nullish d = false) elems →
  ∃ (ids r : loc) (h1 h2 : heap),
    getIds array h = (Ok (VRef ids), h1)
    ∧ filterArrayByIds (VRef ids) array h1 = (Ok (VRef r), h2)
    ∧ h2 !! r = Some (CArr elems)
    ∧ r ≠ ids ∧ array ≠ VRef r.
Proof.
  intros Harr Hall.
  pose proof (fresh_unused h) as Hfresh.
  set (ids := fresh (dom h)) in *.
  set (h1 := <[ids := CArr (id_of h <$> elems)]> h).
  assert (getIds array h = (Ok (VRef ids), h1)) as Hrun1.
  { rewrite getIds_run. cbv zeta. unfold as_list, with_wrapped.
    by rewrite Harr, (existsb_is_nullish_false _ Hall). }
  assert (array_elements h1 array = Some elems) as Harr1.
  { unfold h1. rewrite array_elements_insert; [done | done |].
    by eapply array_elements_allocated. }
  assert (array_elements h1 (VRef ids) = Some (id_of h <$> elems)) as Hids.
  { unfold h1. simpl. by rewrite lookup_insert_eq. }
  pose proof (fresh_unused h1) as Hfresh1.
  set (r := fresh (dom h1)) in *.
  assert (filterArrayByIds (VRef ids) array h1 = (Ok (VRef r), <[r := CArr elems]> h1))
    as Hrun2.
  { rewrite (filterArrayByIds_success h1 (VRef ids) array elems Harr1 Hall).
    unfold with_wrapped, as_list. rewrite Hids. fold r. do 3 f_equal.
    unfold h1. rewrite select_by_id_insert_array by done. apply select_by_own_ids. }
  exists ids, r, h1, (<[r := CArr elems]> h1).
  split; [done|]. split; [done|]. split; [by rewrite lookup_insert_eq|]. split.
  - intros Heq. unfold h1 in Hfresh1. rewrite Heq in Hfresh1.
    by rewrite lookup_insert_eq in Hfresh1.
  - intros ->. simpl in Harr1. by rewrite Hfresh1 in Harr1.
Qed.

Lemma id_of_with_wrapped (h : heap) (v d : value) :
  id_of (with_wrapped h v) d = id_of h d.
Proof.
  unfold with_wrapped. destruct (array_elements h v); [done|].
  apply id_of_insert_array, fresh_unused.
Qed.

Lemma select_by_id_with_wrapped (h : heap) (v : value) (candidates elems : list value) :
  select_by_id (with_wrapped h v) candidates elems = select_by_id h candidates elems.
Proof. apply List.filter_ext. intros d. by rewrite id_of_with_wrapped. Qed.

Lemma array_elements_with_wrapped (h : heap) (v u : value) :
  allocated h u → array_elements (with_wrapped h v) u = array_elements h u.
Proof.
  intros Hu. unfold with_wrapped. destruct (array_elements h v); [done|].
  apply array_elements_insert; [apply fresh_unused | done].
Qed.

Lemma allocated_weaken (h h' : heap) (v : value) :
  h ⊆ h' → allocated h v → allocated h' v.
Proof.
  intros Hsub. destruct v as [| | | |l]; try done. simpl.
  intros [c Hc]. exists c. by eapply lookup_weaken.
Qed.

Lemma select_by_id_not_nullish (h : heap) (candidates elems : list value) :
  Forall (λ d, is_nullish d = false) elems →
  Forall (λ d, is_nullish d = false) (select_by_id h candidates elems).
Proof.
  intros Hall. apply Forall_forall. intros d Hd%list_elem_of_In%filter_In.
  rewrite Forall_forall in Hall. apply Hall, list_elem_of_In, Hd.
Qed.

Lemma select_by_id_idempotent (h : heap) (candidates elems : list value) :
  select_by_id h candidates (select_by_id h candidates elems)
  = select_by_id h candidates elems.
Proof.
  unfold select_by_id. induction elems as [|d elems IH]; [done|]. simpl.
  destruct (bool_decide (id_of h d ∈ candidates)) eqn:Hd; [|done].
  simpl. by rewrite Hd, IH.
Qed.

(** X6.  Filtering the result of [filterArrayByIds] again by the same
    ids changes nothing: the second result holds the same elements, in a
    new array, and the first result is left as it was. *)
Theorem filterArrayByIds_idempotent (h : heap) (ids array : value) (elems : list value) :
  allocated h ids →
  array_elements h array = Some elems →
  Forall (λ d, is_nullish d = false) elems →
  ∃ (r1 r2 : loc) (h1 h2 : heap) (kept : list value),
    filterArrayByIds ids array h = (Ok (VRef r1), h1)
    ∧ filterArrayByIds ids (VRef r1) h1 = (Ok (VRef r2), h2)
    ∧ h1 !! r1 = Some (CArr kept)
    ∧ h2 !! r2 = Some (CArr kept)
    ∧ h2 !! r1 = Some (CArr kept)
    ∧ r1 ≠ r2.
Proof.
  intros Hids Harr Hall.
  set (kept := select_by_id h (as_list h ids) elems).
  set (hm := with_wrapped h ids).
  pose proof (fresh_unused hm) as Hfresh1.
  set (r1 := fresh (dom hm)) in *.
  set (h1 := <[r1 := CArr kept]> hm).
  assert (filterArrayByIds ids array h = (Ok (VRef r1), h1)) as Hrun1
    by apply (filterArrayByIds_success h ids array elems Harr Hall).
  assert (array_elements h1 (VRef r1) = Some kept) as Harr1.
  { unfold h1. simpl. by rewrite lookup_insert_eq. }
  assert (array_elements h1 ids = array_elements h ids) as Hsame.
  { unfold h1. rewrite array_elements_insert.
    - by apply array_elements_with_wrapped.
    - done.
    - eapply allocated_weaken; [apply with_wrapped_includes | done]. }
  assert (as_list h1 ids = as_list h ids) as Hlist by (unfold as_list; by rewrite Hsame).
  pose proof (select_by_id_not_nullish h (as_list h ids) elems Hall) as Hkept.
  fold kept in Hkept.
  pose proof (filterArrayByIds_success h1 ids (VRef r1) kept Harr1 Hkept) as Hrun2.
  rewrite Hlist in Hrun2.
  assert (select_by_id h1 (as_list h ids) kept = kept) as Hsel.
  { unfold h1. rewrite select_by_id_insert_array by done.
    unfold hm. rewrite select_by_id_with_wrapped. apply select_by_id_idempotent. }
  rewrite Hsel in Hrun2.
  exists r1, (fresh (dom (with_wrapped h1 ids))), h1. eexists. exists kept.
  split; [done|]. split; [exact Hrun2|].
  split; [unfold h1; by rewrite lookup_insert_eq|].
  split; [by rewrite lookup_insert_eq|].
  assert (r1 ≠ fresh (dom (with_wrapped h1 ids))) as Hne.
  { intros Heq. pose proof (fresh_unused (with_wrapped h1 ids)) as Hnone.
    rewrite <- Heq in Hnone.
    assert (h1 !! r1 = Some (CArr kept)) as Hr1 by (unfold h1; by rewrite lookup_insert_eq).
    pose proof (lookup_weaken _ _ _ _ Hr1 (with_wrapped_includes h1 ids)). congruence. }
  split; [|done].
  rewrite lookup_insert_ne by done.
  eapply lookup_weaken; [|apply with_wrapped_includes].
  unfold h1. by rewrite lookup_insert_eq.
Qed.

(** X7.  Every id that [getIds] reads from the result of
    [filterArrayByIds] is one of the ids that were asked for. *)
Theorem getIds_of_filtered_are_requested
    (h : heap) (ids array : value) (elems : list value) :
  array_elements h array = Some elems →
  Forall (λ d, is_nullish d = false) elems →
  ∃ (r1 r2 : loc) (h1 h2 : heap) (found : list value),
    filterArrayByIds ids array h = (Ok (VRef r1), h1)
    ∧ getIds (VRef r1) h1 = (Ok (VRef r2), h2)
    ∧ h2 !! r2 = Some (CArr found)
    ∧ Forall (λ v, v ∈ as_list h ids) found.
Proof.
  intros Harr Hall.
  set (kept := select_by_id h (as_list h ids) elems).
  set (hm := with_wrapped h ids).
  pose proof (fresh_unused hm) as Hfresh1.
  set (r1 := fresh (dom hm)) in *.
  set (h1 := <[r1 := CArr kept]> hm).
  assert (filterArrayByIds ids array h = (Ok (VRef r1), h1)) as Hrun1
    by apply (filterArrayByIds_success h ids array elems Harr Hall).
  assert (array_elements h1 (VRef r1) = Some kept) as Harr1.
  { unfold h1. simpl. by rewrite lookup_insert_eq. }
  pose proof (select_by_id_not_nullish h (as_list h ids) elems Hall) as Hkept.
  fold kept in Hkept.
  pose proof (getIds_run h1 (VRef r1)) as Hrun2. cbv zeta in Hrun2.
  unfold as_list in Hrun2 at 1 2. rewrite Harr1 in Hrun2.
  rewrite (existsb_is_nullish_false _ Hkept) in Hrun2.
  exists r1. eexists. exists h1. eexists. exists (id_of h1 <$> kept).
  split; [done|]. split; [exact Hrun2|]. split; [by rewrite lookup_insert_eq|].
  apply Forall_fmap, Forall_forall. intros d Hd. simpl.
  unfold h1. rewrite id_of_insert_array by done. unfold hm. rewrite id_of_with_wrapped.
  apply list_elem_of_In, filter_In in Hd as [_ Hd]. by apply bool_decide_eq_true in Hd.
Qed.

(** What [newJdbcDatasource] does to the store. *)
Lemma newJdbcDatasource_run (h : heap) :
  ∃ (o feeds : loc) (props : gmap string value),
    newJdbcDatasource h = (Ok (VRef o), <[o := CObj props]> (<[feeds := CArr []]> h))
    ∧ h !! feeds = None ∧ h !! o = None ∧ o ≠ feeds
    ∧ props !! "sourceForFeeds" = Some (VRef feeds)
    ∧ props !! "id" = None.
Proof.
  unfold newJdbcDatasource, bind.
  destruct (alloc_fresh (CArr []) h) as (feeds & -> & Hfeeds).
  match goal with |- context [alloc ?c ?h1] =>
    destruct (alloc_fresh c h1) as (o & -> & Ho) end.
  exists o, feeds. eexists. split; [reflexivity|].
  assert (o ≠ feeds) as Hne by (intros ->; by rewrite lookup_insert_eq in Ho).
  rewrite lookup_insert_ne in Ho by done.
  repeat split; done.
Qed.

(** X8.  Two calls of [newJdbcDatasource] return two different objects
    with two different [sourceForFeeds] arrays, all four at locations
    unused before; the second call leaves the first datasource as it
    was. *)
Theorem newJdbcDatasource_twice (h : heap) :
  ∃ (o1 o2 feeds1 feeds2 : loc) (h1 h2 : heap) (props1 props2 : gmap string value),
    newJdbcDatasource h = (Ok (VRef o1), h1)
    ∧ newJdbcDatasource h1 = (Ok (VRef o2), h2)
    ∧ h ⊆ h1 ∧ h1 ⊆ h2
    ∧ h !! o1 = None ∧ h !! feeds1 = None
    ∧ h1 !! o2 = None ∧ h1 !! feeds2 = None
    ∧ h2 !! o1 = Some (CObj props1) ∧ props1 !! "sourceForFeeds" = Some (VRef feeds1)
    ∧ h2 !! o2 = Some (CObj props2) ∧ props2 !! "sourceForFeeds" = Some (VRef feeds2)
    ∧ h2 !! feeds1 = Some (CArr []) ∧ h2 !! feeds2 = Some (CArr [])
    ∧ o1 ≠ o2 ∧ feeds1 ≠ feeds2.
Proof.
  destruct (newJdbcDatasource_run h)
    as (o1 & feeds1 & props1 & Hrun1 & Hf1 & Ho1 & Hne1 & Hp1 & _).
  set (h1 := <[o1 := CObj props1]> (<[feeds1 := CArr []]> h)) in *.
  destruct (newJdbcDatasource_run h1)
    as (o2 & feeds2 & props2 & Hrun2 & Hf2 & Ho2 & Hne2 & Hp2 & _).
  set (h2 := <[o2 := CObj props2]> (<[feeds2 := CArr []]> h1)) in *.
  assert (h ⊆ h1) as Hsub1.
  { unfold h1. trans (<[feeds1 := CArr []]> h); apply insert_subseteq; [done|].
    by rewrite lookup_insert_ne. }
  assert (h1 ⊆ h2) as Hsub2.
  { unfold h2. trans (<[feeds2 := CArr []]> h1); apply insert_subseteq; [done|].
    by rewrite lookup_insert_ne. }
  assert (h1 !! o1 = Some (CObj props1)) as Hl1 by (unfold h1; by rewrite lookup_insert_eq).
  assert (h1 !! feeds1 = Some (CArr [])) as Hl2.
  { unfold h1. rewrite lookup_insert_ne by done. by rewrite lookup_insert_eq. }
  exists o1, o2, feeds1, feeds2, h1, h2, props1, props2.
  repeat split; try done.
  - by eapply lookup_weaken.
  - unfold h2. by rewrite lookup_insert_eq.
  - by eapply lookup_weaken.
  - unfold h2. rewrite lookup_insert_ne by done. by rewrite lookup_insert_eq.
  - intros ->. congruence.
  - intros ->. congruence.
Qed.

(** ** More on escaping *)

Lemma percent_length (octets : list N) :
  List.length (percent octets) = (3 * List.length octets)%nat.
Proof.
  induction octets as [|o octets IH]; [done|].
  change (percent (o :: octets))
    with (37 :: hex_digit (N.shiftr o 4) :: hex_digit o :: percent octets).
  simpl in *. lia.
Qed.

Lemma utf8_length (cp : N) : (1 ≤ List.length (utf8 cp))%nat.
Proof. unfold utf8. repeat case_match; simpl; lia. Qed.

Lemma forallb_is_unescaped_encoded (s : jsstring) :
  forallb is_unescaped s = true → encodeURIComponent s = Ok s.
Proof.
  induction s as [|c s IH]; [done|]. simpl.
  intros [Hc Hs]%andb_true_iff. by rewrite Hc, (IH Hs).
Qed.

(** Escaping copies a string of unescaped characters and makes any other
    string longer. *)
Lemma encodeURIComponent_grows (s escaped : jsstring) :
  encodeURIComponent s = Ok escaped →
  (forallb is_unescaped s = true ∧ escaped = s)
  ∨ (List.length s < List.length escaped)%nat.
Proof.
  assert (∃ n, List.length s ≤ n)%nat as [n Hlen] by (eexists; done).
  revert s escaped Hlen. induction n as [|n IH]; intros [|c rest] escaped Hlen; simpl in *;
    try lia; try (intros [= <-]; by left).
  destruct (is_unescaped c) eqn:Hu.
  { destruct (encodeURIComponent rest) as [r|] eqn:Hr; intros [= <-].
    destruct (IH rest r ltac:(lia) Hr) as [[Hall ->]|Hlt].
    - left. by rewrite Hall.
    - right. simpl. lia. }
  destruct (is_trailing_surrogate c); [done|].
  destruct (is_leading_surrogate c).
  - destruct rest as [|second rest]; [done|].
    destruct (is_trailing_surrogate second); [|done].
    destruct (encodeURIComponent rest) as [r|] eqn:Hr; intros [= <-].
    right. rewrite length_app, percent_length.
    pose proof (utf8_length (surrogate_pair_to_code_point c second)).
    simpl in Hlen. simpl List.length.
    destruct (IH rest r ltac:(lia) Hr) as [[_ ->]|Hlt]; lia.
  - destruct (encodeURIComponent rest) as [r|] eqn:Hr; intros [= <-].
    right. rewrite length_app, percent_length. simpl.
    pose proof (utf8_length c).
    destruct (IH rest r ltac:(lia) Hr) as [[_ ->]|Hlt]; lia.
Qed.

Lemma encodeURIComponent_fixed (s : jsstring) :
  encodeURIComponent s = Ok s ↔ forallb is_unescaped s = true.
Proof.
  split; [|apply forallb_is_unescaped_encoded].
  intros Hs. destruct (encodeURIComponent_grows s s Hs) as [[Hall _]|Hlt]; [done | lia].
Qed.

Lemma lor_disjoint (a y n : N) :
  N.land a (N.ones n) = 0 → y < 2 ^ n → N.lor a y = a + y.
Proof.
  intros Ha Hy.
  assert (N.land a y = 0) as Hd.
  { rewrite <- (N.mod_small y (2 ^ n)) by done. rewrite <- N.land_ones.
    rewrite (N.land_comm y), N.land_assoc, Ha. apply N.land_0_l. }
  rewrite <- N.lxor_lor by done. symmetry. by apply N.add_nocarry_lxor.
Qed.

Ltac div_mod_lia := zify; Z.to_euclidean_division_equations; lia.

Ltac split_ltb :=
  repeat match goal with |- context [?a <? ?b] => destruct (N.ltb_spec a b) end.

Ltac utf8_arith :=
  rewrite ?N.shiftr_div_pow2; change 0x3F with (N.ones 6); rewrite ?N.land_ones;
  rewrite ?(lor_disjoint 0x80 _ 6) by (reflexivity || (apply N.mod_lt; discriminate));
  change (2 ^ 6) with 64; change (2 ^ 12) with 4096; change (2 ^ 18) with 262144.

(** The octets of a code point, in arithmetic. *)
Lemma utf8_octets (cp : N) :
  cp < 0x200000 →
  utf8 cp
  = if cp <? 0x80 then [cp]
    else if cp <? 0x800 then [0xC0 + cp / 64; 0x80 + cp mod 64]
    else if cp <? 0x10000 then
      [0xE0 + cp / 4096; 0x80 + (cp / 64) mod 64; 0x80 + cp mod 64]
    else
      [0xF0 + cp / 262144; 0x80 + (cp / 4096) mod 64;
       0x80 + (cp / 64) mod 64; 0x80 + cp mod 64].
Proof.
  intros Hcp. unfold utf8.
  destruct (N.ltb_spec cp 0x80); [done|].
  destruct (N.ltb_spec cp 0x800).
  { utf8_arith. rewrite (lor_disjoint 0xC0 _ 5); [done | reflexivity |].
    apply N.Div0.div_lt_upper_bound. exact H0. }
  destruct (N.ltb_spec cp 0x10000).
  { utf8_arith. rewrite (lor_disjoint 0xE0 _ 4); [done | reflexivity |].
    apply N.Div0.div_lt_upper_bound. exact H1. }
  utf8_arith. rewrite (lor_disjoint 0xF0 _ 4); [done | reflexivity |].
  apply N.Div0.div_lt_upper_bound. lia.
Qed.

(** Decoding the octets of a code point gives the code point back. *)
Lemma utf8_decode (cp : N) : cp < 0x200000 → decode_octets (utf8 cp) = cp.
Proof.
  intros Hcp. rewrite (utf8_octets cp Hcp).
  destruct (N.ltb_spec cp 0x80); [done|].
  destruct (N.ltb_spec cp 0x800); [simpl; div_mod_lia|].
  destruct (N.ltb_spec cp 0x10000); simpl; div_mod_lia.
Qed.

(** The first octet tells how many there are, and each fits in a byte. *)
Lemma utf8_announced (cp : N) :
  cp < 0x200000 →
  ∃ b bs,
    utf8 cp = b :: bs
    ∧ List.length (utf8 cp) = octets_announced b
    ∧ Forall (λ o, o < 256) (utf8 cp).
Proof.
  intros Hcp. rewrite (utf8_octets cp Hcp). unfold octets_announced.
  destruct (N.ltb_spec cp 0x80).
  { eexists _, _. split; [done|]. split.
    - destruct (N.ltb_spec cp 0x80); [done | lia].
    - repeat constructor. lia. }
  destruct (N.ltb_spec cp 0x800).
  { eexists _, _. split; [done|]. split.
    - split_ltb; try done; div_mod_lia.
    - repeat constructor; div_mod_lia. }
  destruct (N.ltb_spec cp 0x10000).
  { eexists _, _. split; [done|]. split.
    - split_ltb; try done; div_mod_lia.
    - repeat constructor; div_mod_lia. }
  eexists _, _. split; [done|]. split.
  - split_ltb; try done; div_mod_lia.
  - repeat constructor; div_mod_lia.
Qed.

Lemma hex_digit_inj (x y : N) : hex_digit x = hex_digit y → x mod 16 = y mod 16.
Proof.
  unfold hex_digit. change 0xF with (N.ones 4). rewrite !N.land_ones.
  change (2 ^ 4) with 16.
  pose proof (N.mod_lt x 16 ltac:(done)). pose proof (N.mod_lt y 16 ltac:(done)).
  split_ltb; lia.
Qed.

(** The two digits of an escape tell the octet. *)
Lemma escape_inj (b1 b2 : N) :
  b1 < 256 → b2 < 256 →
  hex_digit (N.shiftr b1 4) = hex_digit (N.shiftr b2 4) →
  hex_digit b1 = hex_digit b2 →
  b1 = b2.
Proof.
  intros H1 H2 Hhigh%hex_digit_inj Hlow%hex_digit_inj.
  rewrite !N.shiftr_div_pow2 in Hhigh. change (2 ^ 4) with 16 in Hhigh.
  div_mod_lia.
Qed.

Lemma percent_inj (octets1 octets2 : list N) (r1 r2 : jsstring) :
  List.length octets1 = List.length octets2 →
  Forall (λ o, o < 256) octets1 →
  Forall (λ o, o < 256) octets2 →
  percent octets1 ++ r1 = percent octets2 ++ r2 →
  octets1 = octets2 ∧ r1 = r2.
Proof.
  revert octets2. induction octets1 as [|b1 octets1 IH]; intros [|b2 octets2] Hlen;
    try discriminate Hlen; [done|].
  intros [Hb1 Hall1]%Forall_cons [Hb2 Hall2]%Forall_cons.
  change (percent (b1 :: octets1) ++ r1)
    with (37 :: hex_digit (N.shiftr b1 4) :: hex_digit b1 :: (percent octets1 ++ r1)).
  change (percent (b2 :: octets2) ++ r2)
    with (37 :: hex_digit (N.shiftr b2 4) :: hex_digit b2 :: (percent octets2 ++ r2)).
  intros [= Hhigh Hlow Hrest].
  pose proof (escape_inj b1 b2 Hb1 Hb2 Hhigh Hlow) as ->.
  destruct (IH octets2 ltac:(by injection Hlen) Hall1 Hall2 Hrest) as [-> ->]. done.
Qed.

(** An escaped code point can be read back from the front of a string. *)
Lemma escaped_code_point_inj (cp1 cp2 : N) (r1 r2 : jsstring) :
  cp1 < 0x200000 → cp2 < 0x200000 →
  percent (utf8 cp1) ++ r1 = percent (utf8 cp2) ++ r2 →
  cp1 = cp2 ∧ r1 = r2.
Proof.
  intros Hcp1 Hcp2 Heq.
  destruct (utf8_announced cp1 Hcp1) as (b1 & bs1 & Hb1 & Hlen1 & Hall1).
  destruct (utf8_announced cp2 Hcp2) as (b2 & bs2 & Hb2 & Hlen2 & Hall2).
  assert (b1 = b2) as Hfirst.
  { rewrite Hb1, Hb2 in Heq. rewrite Hb1 in Hall1. rewrite Hb2 in Hall2.
    apply Forall_cons in Hall1 as [H1 _]. apply Forall_cons in Hall2 as [H2 _].
    change (percent (b1 :: bs1) ++ r1)
      with (37 :: hex_digit (N.shiftr b1 4) :: hex_digit b1 :: (percent bs1 ++ r1)) in Heq.
    change (percent (b2 :: bs2) ++ r2)
      with (37 :: hex_digit (N.shiftr b2 4) :: hex_digit b2 :: (percent bs2 ++ r2)) in Heq.
    injection Heq as Hhigh Hlow _. by apply escape_inj. }
  destruct (percent_inj (utf8 cp1) (utf8 cp2) r1 r2) as [Hoctets ->]; try done.
  { by rewrite Hlen1, Hlen2, Hfirst. }
  split; [|done].
  by rewrite <- (utf8_decode cp1 Hcp1), <- (utf8_decode cp2 Hcp2), Hoctets.
Qed.

(** The first step of escaping a string of 16-bit code units. *)
Lemma encodeURIComponent_step (s escaped : jsstring) :
  Forall (λ c, c < 0x10000) s →
  encodeURIComponent s = Ok escaped →
  (s = [] ∧ escaped = [])
  ∨ (∃ c rest r,
       s = c :: rest ∧ is_unescaped c = true
       ∧ encodeURIComponent rest = Ok r ∧ escaped = c :: r)
  ∨ (∃ cp units rest r,
       s = units ++ rest ∧ units ≠ []
       ∧ encodeURIComponent rest = Ok r ∧ escaped = percent (utf8 cp) ++ r
       ∧ cp < 0x200000
       ∧ ((units = [cp] ∧ cp < 0x10000)
          ∨ ∃ lead trail,
              units = [lead; trail] ∧ cp = surrogate_pair_to_code_point lead trail
              ∧ is_leading_surrogate lead = true ∧ is_trailing_surrogate trail = true)).
Proof.
  destruct s as [|c rest]; simpl; [intros _ [= <-]; by left|].
  intros [Hc Hrest]%Forall_cons.
  destruct (is_unescaped c) eqn:Hu.
  { destruct (encodeURIComponent rest) as [r|] eqn:Hr; intros [= <-].
    right. left. by exists c, rest, r. }
  destruct (is_trailing_surrogate c); [done|].
  destruct (is_leading_surrogate c) eqn:Hlead.
  - destruct rest as [|second rest]; [done|].
    destruct (is_trailing_surrogate second) eqn:Htrail; [|done].
    destruct (encodeURIComponent rest) as [r|] eqn:Hr; intros [= <-].
    right. right.
    exists (surrogate_pair_to_code_point c second), [c; second], rest, r.
    split; [done|]. split; [done|]. split; [done|]. split; [done|]. split.
    + apply in_range_spec in Hlead, Htrail. unfold surrogate_pair_to_code_point. lia.
    + right. by exists c, second.
  - destruct (encodeURIComponent rest) as [r|] eqn:Hr; intros [= <-].
    right. right. exists c, [c], rest, r.
    split; [done|]. split; [done|]. split; [done|]. split; [done|]. split; [lia|].
    by left.
Qed.

(** Escaping is one-to-one: no two strings of 16-bit code units have the
    same escaped form. *)
Lemma encodeURIComponent_inj (s1 s2 escaped : jsstring) :
  Forall (λ c, c < 0x10000) s1 →
  Forall (λ c, c < 0x10000) s2 →
  encodeURIComponent s1 = Ok escaped →
  encodeURIComponent s2 = Ok escaped →
  s1 = s2.
Proof.
  assert (∃ n, List.length s1 ≤ n)%nat as [n Hlen] by (eexists; done).
  revert s1 s2 escaped Hlen. induction n as [|n IH]; intros s1 s2 escaped Hlen H1 H2 He1 He2.
  { destruct s1; [|simpl in Hlen; lia]. simpl in He1. injection He1 as <-.
    destruct (encodeURIComponent_step s2 [] H2 He2)
      as [[-> _]|[(c & rest & r & _ & _ & _ & [=])|(cp & units & rest & r & _ & _ & _ & Hr & _)]];
      [done|].
    pose proof (utf8_length cp). apply (f_equal List.length) in Hr.
    rewrite length_app, percent_length in Hr. simpl in Hr. lia. }
  destruct (encodeURIComponent_step s1 escaped H1 He1)
    as [[-> ->]|[(c1 & rest1 & r1 & -> & Hu1 & Hr1 & ->)
                |(cp1 & units1 & rest1 & r1 & -> & Hne1 & Hr1 & -> & Hcp1 & Hunits1)]];
  destruct (encodeURIComponent_step s2 _ H2 He2)
    as [[-> Hnil]|[(c2 & rest2 & r2 & -> & Hu2 & Hr2 & Heq)
                  |(cp2 & units2 & rest2 & r2 & -> & Hne2 & Hr2 & Heq & Hcp2 & Hunits2)]];
    try done.
  - pose proof (utf8_length cp2). apply (f_equal List.length) in Heq.
    rewrite length_app, percent_length in Heq. simpl in Heq. lia.
  - injection Heq as <- <-. f_equal.
    apply Forall_cons in H1 as [_ H1]. apply Forall_cons in H2 as [_ H2].
    apply (IH rest1 rest2 r1); [simpl in Hlen; lia | done..].
  - destruct (utf8_announced cp2 Hcp2) as (b & bs & Hb & _).
    rewrite Hb in Heq. injection Heq as -> _. done.
  - pose proof (utf8_length cp1). apply (f_equal List.length) in Hnil.
    rewrite length_app, percent_length in Hnil. simpl in Hnil. lia.
  - destruct (utf8_announced cp1 Hcp1) as (b & bs & Hb & _).
    rewrite Hb in Heq. injection Heq as <- _. done.
  - destruct (escaped_code_point_inj cp1 cp2 r1 r2 Hcp1 Hcp2 Heq) as [<- <-].
    apply Forall_app in H1 as [_ H1]. apply Forall_app in H2 as [_ H2].
    assert (rest1 = rest2) as <-.
    { apply (IH rest1 rest2 r1); [|done..].
      rewrite length_app in Hlen. destruct units1; [done|]. simpl in Hlen. lia. }
    f_equal.
    destruct Hunits1 as [[-> Hsmall1]|(l1 & t1 & -> & Hpair1 & Hl1 & Ht1)];
    destruct Hunits2 as [[-> Hsmall2]|(l2 & t2 & -> & Hpair2 & Hl2 & Ht2)].
    + done.
    + apply in_range_spec in Hl2, Ht2.
      unfold surrogate_pair_to_code_point in Hpair2. lia.
    + apply in_range_spec in Hl1, Ht1.
      unfold surrogate_pair_to_code_point in Hpair1. lia.
    + apply in_range_spec in Hl1, Ht1, Hl2, Ht2.
      unfold surrogate_pair_to_code_point in Hpair1, Hpair2.
      assert (l1 = l2 ∧ t1 = t2) as [-> ->] by lia. done.
Qed.

Lemma utf8_length_bounds (cp : N) :
  (List.length (utf8 cp) ≤ 4)%nat ∧ (cp < 0x10000 → (List.length (utf8 cp) ≤ 3)%nat).
Proof. unfold utf8. split_ltb; simpl; split; lia. Qed.

(** X11.  The escaped form of a string of 16-bit code units is at least
    as long as the string and at most nine times as long. *)
Theorem encodeURIComponent_length (s escaped : jsstring) :
  encodeURIComponent s = Ok escaped →
  Forall (λ c, c < 0x10000) s →
  (List.length s ≤ List.length escaped ≤ 9 * List.length s)%nat.
Proof.
  intros Hs Hall. split.
  { destruct (encodeURIComponent_grows s escaped Hs) as [[_ ->]|Hlt]; lia. }
  assert (∃ n, List.length s ≤ n)%nat as [n Hlen] by (eexists; done).
  revert s escaped Hlen Hs Hall. induction n as [|n IH]; intros s escaped Hlen Hs Hall.
  { destruct s; [|simpl in Hlen; lia]. simpl in Hs. injection Hs as <-. simpl. lia. }
  destruct (encodeURIComponent_step s escaped Hall Hs)
    as [[-> ->]|[(c & rest & r & -> & Hu & Hr & ->)
                |(cp & units & rest & r & -> & Hne & Hr & -> & Hcp & Hunits)]].
  - simpl. lia.
  - apply Forall_cons in Hall as [_ Hall]. simpl in *.
    pose proof (IH rest r ltac:(lia) Hr Hall). lia.
  - apply Forall_app in Hall as [_ Hall].
    rewrite !length_app, percent_length in *.
    destruct (utf8_length_bounds cp) as [H4 H3].
    destruct Hunits as [[-> Hsmall]|(lead & trail & -> & _)]; simpl in *.
    + specialize (H3 Hsmall). pose proof (IH rest r ltac:(lia) Hr Hall). lia.
    + pose proof (IH rest r ltac:(lia) Hr Hall). lia.
Qed.

(** ** Requests *)

Section Requests.

Variable GET_DATASOURCES_URL : jsstring.
Variable registry : Type.
Variable respond : request → registry → heap → reply * registry * heap.

Implicit Type w : world registry.

Lemma findById_requested (id : jsstring) w :
  requested_urls (snd (findById GET_DATASOURCES_URL respond id w))
  = requested_urls w ++ [GET_DATASOURCES_URL ++ lit "/" ++ id].
Proof.
  unfold findById, http_get, requested_urls.
  match goal with |- context [http respond ?c w] =>
    destruct (unwrapping_run _ respond c w) as (answer & remote' & store' & _ & ->) end.
  cbn [snd sent]. by rewrite fmap_app.
Qed.

Lemma deleteById_requested (id escaped : jsstring) w :
  encodeURIComponent id = Ok escaped →
  requested_urls (snd (deleteById GET_DATASOURCES_URL respond id w))
  = requested_urls w ++ [GET_DATASOURCES_URL ++ lit "/" ++ escaped].
Proof.
  intros Hid. rewrite (deleteById_run _ _ respond _ _ w Hid). unfold requested_urls.
  match goal with |- context [http respond ?c w] =>
    destruct (http_run _ respond c w) as (answer & remote' & store' & _ & ->) end.
  cbn [snd sent]. by rewrite fmap_app.
Qed.

(** X9.  For an id that can be escaped, [deleteById] and [findById]
    request the same address exactly when the id consists of letters,
    digits and the marks [- _ . ! ~ * ' ( )] only. *)
Theorem deleteById_findById_same_address (id : jsstring) w :
  well_formed id = true →
  requested_urls (snd (deleteById GET_DATASOURCES_URL respond id w))
  = requested_urls (snd (findById GET_DATASOURCES_URL respond id w))
  ↔ forallb is_unescaped id = true.
Proof.
  intros Hwf. pose proof (encodeURIComponent_defined id) as Hdef.
  rewrite Hwf in Hdef. destruct Hdef as [escaped Hid].
  rewrite (deleteById_requested id escaped w Hid), findById_requested.
  rewrite <- encodeURIComponent_fixed, Hid. split.
  - intros Heq%app_inv_head. injection Heq as Heq.
    apply app_inv_head in Heq.
    change (lit "/" ++ escaped) with (47 :: escaped) in Heq.
    change (lit "/" ++ id) with (47 :: id) in Heq.
    by injection Heq as ->.
  - by intros [= ->].
Qed.

(** X10.  [deleteById] never requests the same address for two
    different ids (strings of 16-bit code units that can be escaped). *)
Theorem deleteById_addresses_differ (id1 id2 : jsstring) w :
  Forall (λ c, c < 0x10000) id1 →
  Forall (λ c, c < 0x10000) id2 →
  well_formed id1 = true →
  well_formed id2 = true →
  id1 ≠ id2 →
  requested_urls (snd (deleteById GET_DATASOURCES_URL respond id1 w))
  ≠ requested_urls (snd (deleteById GET_DATASOURCES_URL respond id2 w)).
Proof.
  intros H1 H2 Hwf1 Hwf2 Hne.
  pose proof (encodeURIComponent_defined id1) as Hdef1.
  rewrite Hwf1 in Hdef1. destruct Hdef1 as [escaped1 Hid1].
  pose proof (encodeURIComponent_defined id2) as Hdef2.
  rewrite Hwf2 in Hdef2. destruct Hdef2 as [escaped2 Hid2].
  rewrite (deleteById_requested id1 escaped1 w Hid1).
  rewrite (deleteById_requested id2 escaped2 w Hid2).
  intros Heq%app_inv_head. injection Heq as Heq. apply app_inv_head in Heq.
  change (lit "/" ++ escaped1) with (47 :: escaped1) in Heq.
  change (lit "/" ++ escaped2) with (47 :: escaped2) in Heq.
  injection Heq as <-.
  apply Hne. by apply (encodeURIComponent_inj id1 id2 escaped1).
Qed.

(** X12.  Saving a datasource fresh from [newJdbcDatasource] posts an
    object that was not in the store before, has no [id] and has the type
    ["JdbcDatasource"]. *)
Theorem save_new_datasource w :
  ∃ (o : loc) (h1 : heap) (props : gmap string value),
    newJdbcDatasource (store w) = (Ok (VRef o), h1)
    ∧ sent (snd (save GET_DATASOURCES_URL respond (VRef o)
                   {| store := h1; sent := sent w; remote := remote w |}))
      = sent w ++ [({| method := POST; url := GET_DATASOURCES_URL;
                       params := ∅; body := VRef o |}, h1)]
    ∧ h1 !! o = Some (CObj props)
    ∧ props !! "id" = None
    ∧ props !! "@type" = Some (VStr (lit "JdbcDatasource"))
    ∧ store w !! o = None.
Proof.
  unfold newJdbcDatasource, bind.
  destruct (alloc_fresh (CArr []) (store w)) as (feeds & -> & Hfeeds).
  match goal with |- context [alloc ?c ?h1] =>
    destruct (alloc_fresh c h1) as (o & -> & Ho) end.
  eexists o, _, _. split; [reflexivity|]. split.
  - unfold save, http_post.
    match goal with |- context [http respond ?c ?w1] =>
      destruct (unwrapping_run _ respond c w1) as (answer & remote' & store' & _ & ->) end.
    done.
  - split; [by rewrite lookup_insert_eq|]. split; [reflexivity|]. split; [reflexivity|].
    destruct (decide (o = feeds)) as [->|Hne].
    + by rewrite lookup_insert_eq in Ho.
    + by rewrite lookup_insert_ne in Ho.
Qed.

End Requests.

(** ** The further statements at work *)

Lemma demo_array_7 :
  array_elements demo_store (VRef 7%positive)
  = Some [VRef 1%positive; VRef 6%positive; VRef 1%positive].
Proof. reflexivity. Qed.

Lemma demo_array_7_not_nullish :
  Forall (λ d, is_nullish d = false) [VRef 1%positive; VRef 6%positive; VRef 1%positive].
Proof. repeat constructor. Qed.

Lemma demo_array_4_not_nullish :
  Forall (λ d, is_nullish d = false) [VRef 1%positive; VRef 2%positive; VRef 3%positive].
Proof. repeat constructor. Qed.

Lemma filterArrayByIds_throws_exactly_witness :
  allocated demo_store VNull
  ∧ allocated demo_store (VRef 1%positive)
  ∧ fst (filterArrayByIds (VStr (lit "a")) VNull demo_store) = Throw TypeError
  ∧ fst (filterArrayByIds (VStr (lit "a")) (VRef 1%positive) demo_store) = Throw TypeError.
Proof.
  assert (allocated demo_store (VRef 1%positive)) as Halloc by (simpl; eexists; reflexivity).
  split; [exact I|]. split; [exact Halloc|]. split.
  - apply (proj1 (filterArrayByIds_throws_exactly demo_store (VStr (lit "a")) VNull I)).
    left. reflexivity.
  - apply (proj1 (filterArrayByIds_throws_exactly demo_store (VStr (lit "a"))
                    (VRef 1%positive) Halloc)).
    left. reflexivity.
Defined.

Lemma filterArrayByIds_selects_by_strict_equality_witness :
  array_elements demo_store (VRef 7%positive)
  = Some [VRef 1%positive; VRef 6%positive; VRef 1%positive]
  ∧ Forall (λ d, is_nullish d = false) [VRef 1%positive; VRef 6%positive; VRef 1%positive]
  ∧ ∃ r h',
      filterArrayByIds VUndefined (VRef 7%positive) demo_store = (Ok (VRef r), h')
      ∧ h' !! r = Some (CArr [VRef 6%positive]).
Proof.
  split; [reflexivity|]. split; [exact demo_array_7_not_nullish|].
  destruct (filterArrayByIds_selects_by_strict_equality demo_store VUndefined
              (VRef 7%positive) _ demo_array_7 demo_array_7_not_nullish)
    as (r & h' & Hrun & Hr & _).
  exists r, h'. split; [exact Hrun | exact Hr].
Defined.

Lemma filterArrayByIds_ids_as_a_set_witness :
  array_elements demo_store_more (VRef 4%positive)
  = Some [VRef 1%positive; VRef 2%positive; VRef 3%positive]
  ∧ (∀ v, v ∈ as_list demo_store_more (VRef 5%positive)
          ↔ v ∈ as_list demo_store_more (VRef 8%positive))
  ∧ ∃ r1 r2 h1 h2 kept,
      filterArrayByIds (VRef 5%positive) (VRef 4%positive) demo_store_more
      = (Ok (VRef r1), h1)
      ∧ filterArrayByIds (VRef 8%positive) (VRef 4%positive) demo_store_more
        = (Ok (VRef r2), h2)
      ∧ h1 !! r1 = Some (CArr kept)
      ∧ h2 !! r2 = Some (CArr kept).
Proof.
  assert (∀ v, v ∈ as_list demo_store_more (VRef 5%positive)
               ↔ v ∈ as_list demo_store_more (VRef 8%positive)) as Hsame.
  { intros v. change (as_list demo_store_more (VRef 5%positive))
      with [VStr (lit "c"); VStr (lit "a")].
    change (as_list demo_store_more (VRef 8%positive))
      with [VStr (lit "a"); VStr (lit "c"); VStr (lit "a")].
    rewrite !elem_of_cons. tauto. }
  split; [reflexivity|]. split; [exact Hsame|].
  destruct (filterArrayByIds_ids_as_a_set demo_store_more (VRef 5%positive) (VRef 8%positive)
              (VRef 4%positive) _ eq_refl demo_array_4_not_nullish)
    as (r1 & r2 & h1 & h2 & kept1 & kept2 & Hrun1 & Hrun2 & Hk1 & Hk2 & _ & Heq).
  exists r1, r2, h1, h2, kept1.
  split; [exact Hrun1|]. split; [exact Hrun2|]. split; [exact Hk1|].
  rewrite (Heq Hsame). exact Hk2.
Defined.

Lemma filterArrayByIds_getIds_round_trip_witness :
  array_elements demo_store (VRef 7%positive)
  = Some [VRef 1%positive; VRef 6%positive; VRef 1%positive]
  ∧ Forall (λ d, is_nullish d = false) [VRef 1%positive; VRef 6%positive; VRef 1%positive]
  ∧ ∃ ids r h1 h2,
      getIds (VRef 7%positive) demo_store = (Ok (VRef ids), h1)
      ∧ filterArrayByIds (VRef ids) (VRef 7%positive) h1 = (Ok (VRef r), h2)
      ∧ h2 !! r = Some (CArr [VRef 1%positive; VRef 6%positive; VRef 1%positive]).
Proof.
  split; [reflexivity|]. split; [exact demo_array_7_not_nullish|].
  destruct (filterArrayByIds_getIds_round_trip demo_store (VRef 7%positive) _
              demo_array_7 demo_array_7_not_nullish)
    as (ids & r & h1 & h2 & Hrun1 & Hrun2 & Hr & _).
  exists ids, r, h1, h2. split; [exact Hrun1|]. split; [exact Hrun2 | exact Hr].
Defined.

Lemma filterArrayByIds_idempotent_witness :
  allocated demo_store (VRef 5%positive)
  ∧ array_elements demo_store (VRef 4%positive)
    = Some [VRef 1%positive; VRef 2%positive; VRef 3%positive]
  ∧ ∃ r1 r2 h1 h2 kept,
      filterArrayByIds (VRef 5%positive) (VRef 4%positive) demo_store = (Ok (VRef r1), h1)
      ∧ filterArrayByIds (VRef 5%positive) (VRef r1) h1 = (Ok (VRef r2), h2)
      ∧ h1 !! r1 = Some (CArr kept)
      ∧ h2 !! r2 = Some (CArr kept).
Proof.
  assert (allocated demo_store (VRef 5%positive)) as Halloc by (simpl; eexists; reflexivity).
  split; [exact Halloc|]. split; [reflexivity|].
  destruct (filterArrayByIds_idempotent demo_store (VRef 5%positive) (VRef 4%positive) _
              Halloc eq_refl demo_array_4_not_nullish)
    as (r1 & r2 & h1 & h2 & kept & Hrun1 & Hrun2 & Hk1 & Hk2 & _).
  exists r1, r2, h1, h2, kept. auto.
Defined.

Lemma getIds_of_filtered_are_requested_witness :
  array_elements demo_store (VRef 4%positive)
  = Some [VRef 1%positive; VRef 2%positive; VRef 3%positive]
  ∧ ∃ r1 r2 h1 h2 found,
      filterArrayByIds (VRef 5%positive) (VRef 4%positive) demo_store = (Ok (VRef r1), h1)
      ∧ getIds (VRef r1) h1 = (Ok (VRef r2), h2)
      ∧ h2 !! r2 = Some (CArr found)
      ∧ Forall (λ v, v ∈ [VStr (lit "c"); VStr (lit "a")]) found.
Proof.
  split; [reflexivity|].
  destruct (getIds_of_filtered_are_requested demo_store (VRef 5%positive) (VRef 4%positive) _
              eq_refl demo_array_4_not_nullish)
    as (r1 & r2 & h1 & h2 & found & Hrun1 & Hrun2 & Hfound & Hall).
  exists r1, r2, h1, h2, found. auto.
Defined.

Lemma deleteById_findById_same_address_witness :
  well_formed (lit "c0ffee-42") = true
  ∧ forallb is_unescaped (lit "c0ffee-42") = true
  ∧ requested_urls (snd (deleteById demo_url answering (lit "c0ffee-42") demo_world))
    = requested_urls (snd (findById demo_url answering (lit "c0ffee-42") demo_world)).
Proof.
  split; [reflexivity|]. split; [reflexivity|].
  exact (proj2 (deleteById_findById_same_address demo_url unit answering
                  (lit "c0ffee-42") demo_world eq_refl) eq_refl).
Defined.

Lemma deleteById_addresses_differ_witness :
  Forall (λ c, c < 0x10000) (lit "a/b")
  ∧ Forall (λ c, c < 0x10000) (lit "a%2Fb")
  ∧ well_formed (lit "a/b") = true
  ∧ well_formed (lit "a%2Fb") = true
  ∧ lit "a/b" ≠ lit "a%2Fb"
  ∧ requested_urls (snd (deleteById demo_url answering (lit "a/b") demo_world))
    ≠ requested_urls (snd (deleteById demo_url answering (lit "a%2Fb") demo_world)).
Proof.
  assert (Forall (λ c, c < 0x10000) (lit "a/b")) as H1 by (repeat constructor).
  assert (Forall (λ c, c < 0x10000) (lit "a%2Fb")) as H2 by (repeat constructor).
  assert (lit "a/b" ≠ lit "a%2Fb") as Hne by discriminate.
  split; [exact H1|]. split; [exact H2|]. split; [reflexivity|]. split; [reflexivity|].
  split; [exact Hne|].
  exact (deleteById_addresses_differ demo_url unit answering _ _ demo_world
           H1 H2 eq_refl eq_refl Hne).
Defined.

Lemma encodeURIComponent_length_witness :
  encodeURIComponent [0x20AC; 97] = Ok (lit "%E2%82%ACa")
  ∧ Forall (λ c, c < 0x10000) [0x20AC; 97]
  ∧ (2 ≤ List.length (lit "%E2%82%ACa") ≤ 18)%nat.
Proof.
  assert (Forall (λ c, c < 0x10000) [0x20AC; 97]) as Hall by (repeat constructor).
  split; [reflexivity|]. split; [exact Hall|].
  exact (encodeURIComponent_length [0x20AC; 97] (lit "%E2%82%ACa") eq_refl Hall).
Defined.
